(** * babel-plugin-react-component-tagger: the topmost-JSX tagger of
    [src/index.js], embedded in Rocq.

    The plugin is a Babel visitor.  Its [Program] visitor derives the display
    path of the file, its [FunctionDeclaration] and [VariableDeclarator]
    visitors run a nested traversal ([findTopmostJSX]) that collects the
    opening elements to tag in the set [state.topmostElements], and its
    [JSXOpeningElement] visitor pushes the [__file-path] attribute on the
    opening elements found in that set. *)

From Stdlib Require Import ZArith String Ascii.
From stdpp Require Import base gmap sets list strings.

Open Scope string_scope.
Open Scope list_scope.

(** ** JavaScript strings

    Strings are sequences of code units; [indexOf] and [substring] are the
    two [String.prototype] methods the plugin calls. *)
Module JSString.

Fixpoint startsWith (s searchString : string) {struct searchString} : bool :=
  match searchString, s with
  | EmptyString, _ => true
  | String _ _, EmptyString => false
  | String a p, String b t => if Ascii.eqb a b then startsWith t p else false
  end.

(** [indexOf_from s searchString i]: the index of the first occurrence of
    [searchString] in [s], counted from [i]; [-1] when there is none. *)
Fixpoint indexOf_from (s searchString : string) (i : Z) : Z :=
  if startsWith s searchString then i
  else match s with
       | EmptyString => (-1)%Z
       | String _ t => indexOf_from t searchString (i + 1)
       end.

Definition indexOf (s searchString : string) : Z := indexOf_from s searchString 0.

Fixpoint drop_units (n : nat) (s : string) : string :=
  match n, s with
  | O, _ => s
  | S _, EmptyString => EmptyString
  | S n', String _ t => drop_units n' t
  end.

(** [s.substring(indexStart)]: a negative start counts as [0]. *)
Definition substring (s : string) (indexStart : Z) : string :=
  drop_units (Z.to_nat indexStart) s.

(** [s || d] on strings: the empty string is the only falsy string. *)
Definition or_else (s d : string) : string :=
  match s with EmptyString => d | _ => s end.

End JSString.

(** ** The syntax tree

    Babel nodes are objects with a [type] tag; the embedding has one
    constructor per node type the plugin inspects or that the examples use,
    and [OtherNode] for every other node type, with its child nodes in the
    order of Babel's visitor keys.  An opening element carries [oid], the
    identity of the node object: [state.topmostElements] is a [Set] of
    references. *)

Inductive LogicalOperator := OpAnd | OpOr | OpNullish.

Inductive JSXAttrName :=
| JSXIdentifier (name : string)
| JSXNamespacedName (namespace name : string).

Record JSXOpeningElement_ (N : Type) := mkOpening {
  oid : nat;
  tagName : string;
  attributes : list N
}.
Arguments mkOpening {N} _ _ _.
Arguments oid {N} _.
Arguments tagName {N} _.
Arguments attributes {N} _.

#[warnings="-register-all"]
Inductive node :=
| JSXElement (openingElement : JSXOpeningElement_ node) (children : list node)
| JSXFragment (children : list node)
| JSXExpressionContainer (expression : node)
| JSXText (value : string)
| JSXAttribute (name : JSXAttrName) (value : option node)
| JSXSpreadAttribute (argument : node)
| LogicalExpression (operator : LogicalOperator) (left right : node)
| ConditionalExpression (test consequent alternate : node)
| ArrowFunctionExpression (params : list node) (body : node)
| FunctionExpression (params : list node) (body : node)
| FunctionDeclaration (id : string) (params : list node) (body : node)
| VariableDeclaration (declarations : list node)
| VariableDeclarator (id : node) (init : option node)
| ReturnStatement (argument : option node)
| BlockStatement (body : list node)
| IfStatement (test consequent : node) (alternate : option node)
| ExpressionStatement (expression : node)
| Identifier (name : string)
| NullLiteral
| StringLiteral (value : string)
| OtherNode (type : string) (children : list node).

Abbreviation JSXOpeningElement := (JSXOpeningElement_ node).

(** The parent of a visited node is a node or, for an attribute, the opening
    element that holds it. *)
Inductive parent :=
| ParentNode (n : node)
| ParentOpening (o : JSXOpeningElement).

Definition isJSXAttribute (p : parent) : bool :=
  match p with ParentNode (JSXAttribute _ _) => true | _ => false end.

(** ** The plugin state

    [state] of the visitor (Babel's [PluginPass]): the set of opening
    elements to tag, by node identity, and the display path of the file. *)
Record PluginPass := mkState {
  topmostElements : gset nat;
  filePath : string
}.

(** [state.topmostElements.add(openingElement)] *)
Definition add (o : JSXOpeningElement) (state : PluginPass) : PluginPass :=
  {| topmostElements := {[oid o]} ∪ topmostElements state;
     filePath := filePath state |}.

(** ** [findTopmostJSX]: the nested traversal of one component

    [Scan] is what the visitors of the nested traversal share: the plugin
    state and the local variable [foundTopmost] of this call. *)
Record Scan := mkScan {
  state : PluginPass;
  foundTopmost : bool
}.

(** [state.topmostElements.add(o); foundTopmost = true;] *)
Definition tag (o : JSXOpeningElement) (s : Scan) : Scan :=
  {| state := add o (state s); foundTopmost := true |}.

Fixpoint extractJSXFromLogicalAnd (expr : node) : option node :=
  match expr with
  | JSXElement _ _ => Some expr
  | LogicalExpression OpAnd _ right' => extractJSXFromLogicalAnd right'
  | _ => None
  end.

(** The body of the [for] loop of [tagFragmentChildren]. *)
Definition tagFragmentChild (child : node) (s : Scan) : Scan :=
  match child with
  | JSXElement o _ => tag o s
  | JSXExpressionContainer expression =>
      match expression with
      | JSXElement o _ => tag o s
      | LogicalExpression OpAnd _ _ =>
          match extractJSXFromLogicalAnd expression with
          | Some (JSXElement o _) => tag o s
          | _ => s
          end
      | ConditionalExpression _ consequent alternate =>
          let s := match consequent with JSXElement o _ => tag o s | _ => s end in
          match alternate with JSXElement o _ => tag o s | _ => s end
      | _ => s
      end
  | _ => s
  end.

Definition tagFragmentChildren (fragment : node) (s : Scan) : Scan :=
  match fragment with
  | JSXFragment children =>
      fold_left (fun s child => tagFragmentChild child s) children s
  | _ => s
  end.

(** The three visitors handed to [path.traverse]. *)
Definition ReturnStatement_visitor (argument : option node) (s : Scan) : Scan :=
  if foundTopmost s then s
  else match argument with
       | Some (JSXElement o _) => tag o s
       | Some (JSXFragment children) => tagFragmentChildren (JSXFragment children) s
       | _ => s
       end.

Definition ArrowFunctionExpression_visitor (body : node) (s : Scan) : Scan :=
  if foundTopmost s then s
  else match body with
       | JSXElement o _ => tag o s
       | JSXFragment children => tagFragmentChildren (JSXFragment children) s
       | _ => s
       end.

Definition JSXExpressionContainer_visitor
    (exprPath_parent : parent) (expression : node) (s : Scan) : Scan :=
  if isJSXAttribute exprPath_parent then
    match expression with
    | JSXElement o _ => mkScan (add o (state s)) (foundTopmost s)
    | LogicalExpression OpAnd _ _ =>
        match extractJSXFromLogicalAnd expression with
        | Some (JSXElement o _) => mkScan (add o (state s)) (foundTopmost s)
        | _ => s
        end
    | ConditionalExpression _ consequent alternate =>
        let s := match consequent with
                 | JSXElement o _ => mkScan (add o (state s)) (foundTopmost s)
                 | _ => s
                 end in
        match alternate with
        | JSXElement o _ => mkScan (add o (state s)) (foundTopmost s)
        | _ => s
        end
    | _ => s
    end
  else s.

(** The visitor called when the nested traversal enters a node. *)
Definition scan_enter (p : parent) (n : node) (s : Scan) : Scan :=
  match n with
  | ReturnStatement argument => ReturnStatement_visitor argument s
  | ArrowFunctionExpression _ body => ArrowFunctionExpression_visitor body s
  | JSXExpressionContainer expression => JSXExpressionContainer_visitor p expression s
  | _ => s
  end.

(** Babel visits the child nodes of a node key by key, in the order of the
    node type's visitor keys, and the elements of an array key in order. *)
Definition visit_list {S : Type} (f : node -> S -> S) (l : list node) (s : S) : S :=
  fold_left (fun s n => f n s) l s.

Definition visit_opt {S : Type} (f : node -> S -> S) (o : option node) (s : S) : S :=
  match o with Some n => f n s | None => s end.

Definition traverse_keys {S : Type} (visit : parent -> node -> S -> S) (n : node) (s : S) : S :=
  let sub := visit (ParentNode n) in
  match n with
  | JSXElement o children =>
      visit_list sub children (visit_list (visit (ParentOpening o)) (attributes o) s)
  | JSXFragment children => visit_list sub children s
  | JSXExpressionContainer expression => sub expression s
  | JSXText _ => s
  | JSXAttribute _ value => visit_opt sub value s
  | JSXSpreadAttribute argument => sub argument s
  | LogicalExpression _ left' right' => sub right' (sub left' s)
  | ConditionalExpression test consequent alternate =>
      sub alternate (sub consequent (sub test s))
  | ArrowFunctionExpression params body => sub body (visit_list sub params s)
  | FunctionExpression params body => sub body (visit_list sub params s)
  | FunctionDeclaration _ params body => sub body (visit_list sub params s)
  | VariableDeclaration declarations => visit_list sub declarations s
  | VariableDeclarator id init => visit_opt sub init (sub id s)
  | ReturnStatement argument => visit_opt sub argument s
  | BlockStatement body => visit_list sub body s
  | IfStatement test consequent alternate =>
      visit_opt sub alternate (sub consequent (sub test s))
  | ExpressionStatement expression => sub expression s
  | Identifier _ => s
  | NullLiteral => s
  | StringLiteral _ => s
  | OtherNode _ children => visit_list sub children s
  end.

(** A traversal at one node: the visitor of the node, then its children. *)
Fixpoint traverse {S : Type} (enter : parent -> node -> S -> S)
    (p : parent) (n : node) (s : S) : S :=
  traverse_keys (traverse enter) n (enter p n s).

Definition scan_node : parent -> node -> Scan -> Scan := traverse scan_enter.

(** [path.traverse(visitor)] visits the descendants of [path.node], not the
    node itself; [foundTopmost] starts at [false] in every call. *)
Definition findTopmostJSX (path_node : node) (st : PluginPass) : PluginPass :=
  state (traverse_keys scan_node path_node (mkScan st false)).

(** ** The visitors of the plugin *)

(** Completion of a block that may throw. *)
Inductive completion (A : Type) :=
| Normal (a : A)
| Throw (error : string).
Arguments Normal {A} _.
Arguments Throw {A} _.

#[global] Instance completion_ret : MRet completion := fun _ a => Normal a.
#[global] Instance completion_bind : MBind completion := fun _ _ k c =>
  match c with Normal a => k a | Throw e => Throw e end.

(** [state.file] and [state.file.opts]: either may be missing, and reading a
    property of a missing object throws. *)
Record Options := mkOptions { filename : option string }.
Record BabelFile := mkFile { opts : option Options }.

Definition get_opts (file : option BabelFile) : completion (option Options) :=
  match file with
  | Some f => Normal (opts f)
  | None => Throw "TypeError: cannot read properties of undefined (reading 'opts')"
  end.

Definition get_filename (o : option Options) : completion (option string) :=
  match o with
  | Some o => Normal (filename o)
  | None => Throw "TypeError: cannot read properties of undefined (reading 'filename')"
  end.

(** The body of the [try] block of [Program.enter]. *)
Definition Program_enter_try (file : option BabelFile) (st : PluginPass)
    : completion PluginPass :=
  if bool_decide (is_Some file) then
    o ← get_opts file;
    if bool_decide (is_Some o) then
      name ← get_filename o;
      let st := mkState (topmostElements st)
                        (JSString.or_else (default "" name) "") in
      let srcIndex := JSString.indexOf (filePath st) "src/" in
      if bool_decide (srcIndex ≠ (-1)%Z) then
        Normal (mkState (topmostElements st) (JSString.substring (filePath st) srcIndex))
      else Normal st
    else Normal st
  else Normal st.

(** [Program.enter]: a fresh set, the empty path, then the [try] block; the
    [catch] clause logs the error and goes on with the state as it is. *)
Definition Program_enter (file : option BabelFile) : PluginPass :=
  let st := mkState ∅ "" in
  match Program_enter_try file st with
  | Normal st' => st'
  | Throw _ => st
  end.

(** [attr => t.isJSXAttribute(attr) && attr.name && attr.name.name === '__file-path'] *)
Definition isFilePathAttribute (attr : node) : bool :=
  match attr with
  | JSXAttribute (JSXIdentifier name) _ => bool_decide (name = "__file-path")
  | _ => false
  end.

Definition hasAttribute (o : JSXOpeningElement) : bool :=
  existsb isFilePathAttribute (attributes o).

(** [t.jsxAttribute(t.jsxIdentifier('__file-path'), t.stringLiteral(filePath))] *)
Definition filePathAttribute (filePath : string) : node :=
  JSXAttribute (JSXIdentifier "__file-path") (Some (StringLiteral filePath)).

(** What the [JSXOpeningElement] visitor pushes on [path.node.attributes]. *)
Definition pushed (o : JSXOpeningElement) (st : PluginPass) : list node :=
  if bool_decide (oid o ∈ topmostElements st) then
    let filePath := JSString.or_else (filePath st) "unknown" in
    if negb (hasAttribute o) then [filePathAttribute filePath] else []
  else [].

Definition JSXOpeningElement_visitor (o : JSXOpeningElement) (st : PluginPass)
    : JSXOpeningElement :=
  mkOpening (oid o) (tagName o) (attributes o ++ pushed o st).

Definition isFunction (init : option node) : bool :=
  match init with
  | Some (ArrowFunctionExpression _ _) | Some (FunctionExpression _ _) => true
  | _ => false
  end.

(** The [FunctionDeclaration] and [VariableDeclarator] visitors. *)
Definition plugin_enter (n : node) (st : PluginPass) : PluginPass :=
  match n with
  | FunctionDeclaration _ _ _ => findTopmostJSX n st
  | VariableDeclarator _ init => if isFunction init then findTopmostJSX n st else st
  | _ => st
  end.

(** The traversal of the plugin mutates the tree in place: it is embedded as
    a function that returns the tree after the traversal together with the
    state.  At an element the [JSXOpeningElement] visitor runs first, on the
    opening element as the parser left it; the traversal then goes through
    the attributes and the children.  What the visitor has pushed stays at
    the end of the attributes (it holds no node that a visitor of the plugin
    matches). *)
Definition rewrite_list (f : node -> PluginPass -> node * PluginPass)
    : list node -> PluginPass -> list node * PluginPass :=
  fix go l st :=
    match l with
    | [] => ([], st)
    | n :: l' =>
        let '(n', st1) := f n st in
        let '(l'', st2) := go l' st1 in
        (n' :: l'', st2)
    end.

Definition rewrite_opt (f : node -> PluginPass -> node * PluginPass)
    (o : option node) (st : PluginPass) : option node * PluginPass :=
  match o with
  | Some n => let '(n', st') := f n st in (Some n', st')
  | None => (None, st)
  end.

Definition rewrite_keys (visit : node -> PluginPass -> node * PluginPass)
    (n : node) (st : PluginPass) : node * PluginPass :=
  match n with
  | JSXElement o children =>
      let o' := JSXOpeningElement_visitor o st in
      let new := drop (length (attributes o)) (attributes o') in
      let '(attrs, st1) := rewrite_list visit (attributes o) st in
      let '(children', st2) := rewrite_list visit children st1 in
      (JSXElement (mkOpening (oid o') (tagName o') (attrs ++ new)) children', st2)
  | JSXFragment children =>
      let '(children', st1) := rewrite_list visit children st in
      (JSXFragment children', st1)
  | JSXExpressionContainer expression =>
      let '(e, st1) := visit expression st in (JSXExpressionContainer e, st1)
  | JSXText v => (JSXText v, st)
  | JSXAttribute name value =>
      let '(v, st1) := rewrite_opt visit value st in (JSXAttribute name v, st1)
  | JSXSpreadAttribute argument =>
      let '(a, st1) := visit argument st in (JSXSpreadAttribute a, st1)
  | LogicalExpression op left' right' =>
      let '(l, st1) := visit left' st in
      let '(r, st2) := visit right' st1 in
      (LogicalExpression op l r, st2)
  | ConditionalExpression test consequent alternate =>
      let '(t, st1) := visit test st in
      let '(c, st2) := visit consequent st1 in
      let '(a, st3) := visit alternate st2 in
      (ConditionalExpression t c a, st3)
  | ArrowFunctionExpression params body =>
      let '(ps, st1) := rewrite_list visit params st in
      let '(b, st2) := visit body st1 in
      (ArrowFunctionExpression ps b, st2)
  | FunctionExpression params body =>
      let '(ps, st1) := rewrite_list visit params st in
      let '(b, st2) := visit body st1 in
      (FunctionExpression ps b, st2)
  | FunctionDeclaration id params body =>
      let '(ps, st1) := rewrite_list visit params st in
      let '(b, st2) := visit body st1 in
      (FunctionDeclaration id ps b, st2)
  | VariableDeclaration declarations =>
      let '(ds, st1) := rewrite_list visit declarations st in
      (VariableDeclaration ds, st1)
  | VariableDeclarator id init =>
      let '(i, st1) := visit id st in
      let '(v, st2) := rewrite_opt visit init st1 in
      (VariableDeclarator i v, st2)
  | ReturnStatement argument =>
      let '(a, st1) := rewrite_opt visit argument st in (ReturnStatement a, st1)
  | BlockStatement body =>
      let '(b, st1) := rewrite_list visit body st in (BlockStatement b, st1)
  | IfStatement test consequent alternate =>
      let '(t, st1) := visit test st in
      let '(c, st2) := visit consequent st1 in
      let '(a, st3) := rewrite_opt visit alternate st2 in
      (IfStatement t c a, st3)
  | ExpressionStatement expression =>
      let '(e, st1) := visit expression st in (ExpressionStatement e, st1)
  | Identifier name => (Identifier name, st)
  | NullLiteral => (NullLiteral, st)
  | StringLiteral v => (StringLiteral v, st)
  | OtherNode type children =>
      let '(children', st1) := rewrite_list visit children st in
      (OtherNode type children', st1)
  end.

Fixpoint plugin_visit (n : node) (st : PluginPass) : node * PluginPass :=
  rewrite_keys plugin_visit n (plugin_enter n st).

(** One run of the plugin over a file: [Program.enter], then the traversal
    of the statements of the program. *)
Definition transform (file : option BabelFile) (program : list node)
    : list node * PluginPass :=
  rewrite_list plugin_visit program (Program_enter file).

(** * Definitions for the statements

    What the theorems below are stated with: the words of the
    specification as definitions, the structure of trees, and the programs
    used as examples. *)

(** ** The words of the specification *)

(** [occurs_at s pat pre]: [pat] occurs in [s] right after the prefix
    [pre], that is at index [String.length pre]. *)
Definition occurs_at (s pat pre : string) : Prop :=
  exists post, s = pre +:+ pat +:+ post.

(** [state.file.opts.filename] when every object on the way is there. *)
Definition supplied_path (file : option BabelFile) : option string :=
  f ← file; o ← opts f; filename o.

(** The file object Babel builds for a file compiled under the name [path]. *)
Definition file_named (path : string) : option BabelFile :=
  Some (mkFile (Some (mkOptions (Some path)))).

(** The number of attributes of an opening element that are named
    [__file-path]. *)
Definition count_filePath (o : JSXOpeningElement) : nat :=
  length (filter (fun attr => isFilePathAttribute attr = true) (attributes o)).

(** The operand found by following the right-hand operands of a chain of
    [&&] until an operand that is not a [&&] expression. *)
Fixpoint rightmost_operand (expr : node) : node :=
  match expr with
  | LogicalExpression OpAnd _ right' => rightmost_operand right'
  | _ => expr
  end.

(** The identity of the opening tag of a markup element; nothing for any
    other node. *)
Definition element_id (n : node) : list nat :=
  match n with JSXElement o _ => [oid o] | _ => [] end.

(** The three-way classification of the expression of a value-interpolation
    slot: a direct element, a chain of [&&], or the two branches of a
    ternary. *)
Definition resolved (expression : node) : list nat :=
  match expression with
  | JSXElement o _ => [oid o]
  | LogicalExpression OpAnd _ _ => element_id (rightmost_operand expression)
  | ConditionalExpression _ consequent alternate =>
      element_id consequent ++ element_id alternate
  | _ => []
  end.

(** The opening tags a top-level child of a fragment contributes. *)
Definition qualifying (child : node) : list nat :=
  match child with
  | JSXElement o _ => [oid o]
  | JSXExpressionContainer expression => resolved expression
  | _ => []
  end.

(** A chain of [&&] nested along the right-hand operand:
    [c1 && (c2 && (... && last))]. *)
Definition and_chain (conditions : list node) (last : node) : node :=
  foldr (LogicalExpression OpAnd) last conditions.

(** ** The structure of trees *)

(** The child nodes of a node, each with the parent its visitor sees, in the
    order a traversal visits them. *)
Definition subnodes (n : node) : list (parent * node) :=
  let sub := pair (ParentNode n) in
  match n with
  | JSXElement o children =>
      (pair (ParentOpening o) <$> attributes o) ++ (sub <$> children)
  | JSXFragment children => sub <$> children
  | JSXExpressionContainer expression => [sub expression]
  | JSXText _ => []
  | JSXAttribute _ value => sub <$> option_list value
  | JSXSpreadAttribute argument => [sub argument]
  | LogicalExpression _ left' right' => [sub left'; sub right']
  | ConditionalExpression test consequent alternate =>
      [sub test; sub consequent; sub alternate]
  | ArrowFunctionExpression params body => (sub <$> params) ++ [sub body]
  | FunctionExpression params body => (sub <$> params) ++ [sub body]
  | FunctionDeclaration _ params body => (sub <$> params) ++ [sub body]
  | VariableDeclaration declarations => sub <$> declarations
  | VariableDeclarator id init => sub id :: (sub <$> option_list init)
  | ReturnStatement argument => sub <$> option_list argument
  | BlockStatement body => sub <$> body
  | IfStatement test consequent alternate =>
      sub test :: sub consequent :: (sub <$> option_list alternate)
  | ExpressionStatement expression => [sub expression]
  | Identifier _ => []
  | NullLiteral => []
  | StringLiteral _ => []
  | OtherNode _ children => sub <$> children
  end.

(** [inside (p, d) n]: the node [d], whose parent is [p], is a proper
    descendant of [n]. *)
Inductive inside (pd : parent * node) : node -> Prop :=
| inside_child n : pd ∈ subnodes n -> inside pd n
| inside_below n p c : (p, c) ∈ subnodes n -> inside pd c -> inside pd n.

(** The root of the tree of a file. *)
Definition Program (body : list node) : node := OtherNode "Program" body.

(** The nodes [findTopmostJSX] is called on. *)
Definition is_component (n : node) : bool :=
  match n with
  | FunctionDeclaration _ _ _ => true
  | VariableDeclarator _ init => isFunction init
  | _ => false
  end.

(** C4, as the claim words it: every [{...}] slot that is the value of an
    attribute, anywhere in the file, has the elements its expression
    resolves to marked. *)
Definition prop_values_marked_everywhere
    (file : option BabelFile) (program : list node) : Prop :=
  forall p expression i,
    inside (p, JSXExpressionContainer expression) (Program program) ->
    isJSXAttribute p = true ->
    i ∈ resolved expression ->
    i ∈ topmostElements (transform file program).2.

(** ** The order on states: the set grows, the path stays *)
Definition state_le (st st' : PluginPass) : Prop :=
  topmostElements st ⊆ topmostElements st' /\ filePath st = filePath st'.

Definition scan_le (s s' : Scan) : Prop := state_le (state s) (state s').

(** The traversal of the plugin, for the state alone. *)
Definition plugin_state : parent -> node -> PluginPass -> PluginPass :=
  traverse (fun _ => plugin_enter).

(** ** The opening tags of a tree and the injector as a pass of its own *)

(** All the opening elements of a tree, in the order of the traversal. *)
Fixpoint openings (n : node) : list JSXOpeningElement :=
  match n with
  | JSXElement o children =>
      o :: ((attributes o ≫= openings) ++ (children ≫= openings))
  | JSXFragment children => children ≫= openings
  | JSXExpressionContainer expression => openings expression
  | JSXText _ => []
  | JSXAttribute _ value => from_option openings [] value
  | JSXSpreadAttribute argument => openings argument
  | LogicalExpression _ left' right' => openings left' ++ openings right'
  | ConditionalExpression test consequent alternate =>
      openings test ++ openings consequent ++ openings alternate
  | ArrowFunctionExpression params body => (params ≫= openings) ++ openings body
  | FunctionExpression params body => (params ≫= openings) ++ openings body
  | FunctionDeclaration _ params body => (params ≫= openings) ++ openings body
  | VariableDeclaration declarations => declarations ≫= openings
  | VariableDeclarator id init => openings id ++ from_option openings [] init
  | ReturnStatement argument => from_option openings [] argument
  | BlockStatement body => body ≫= openings
  | IfStatement test consequent alternate =>
      openings test ++ openings consequent ++ from_option openings [] alternate
  | ExpressionStatement expression => openings expression
  | Identifier _ => []
  | NullLiteral => []
  | StringLiteral _ => []
  | OtherNode _ children => children ≫= openings
  end.

(** The identities of the opening elements of a tree, in the same order. *)
Fixpoint ids (n : node) : list nat :=
  match n with
  | JSXElement o children => oid o :: ((attributes o ≫= ids) ++ (children ≫= ids))
  | JSXFragment children => children ≫= ids
  | JSXExpressionContainer expression => ids expression
  | JSXText _ => []
  | JSXAttribute _ value => from_option ids [] value
  | JSXSpreadAttribute argument => ids argument
  | LogicalExpression _ left' right' => ids left' ++ ids right'
  | ConditionalExpression test consequent alternate =>
      ids test ++ ids consequent ++ ids alternate
  | ArrowFunctionExpression params body => (params ≫= ids) ++ ids body
  | FunctionExpression params body => (params ≫= ids) ++ ids body
  | FunctionDeclaration _ params body => (params ≫= ids) ++ ids body
  | VariableDeclaration declarations => declarations ≫= ids
  | VariableDeclarator id init => ids id ++ from_option ids [] init
  | ReturnStatement argument => from_option ids [] argument
  | BlockStatement body => body ≫= ids
  | IfStatement test consequent alternate =>
      ids test ++ ids consequent ++ from_option ids [] alternate
  | ExpressionStatement expression => ids expression
  | Identifier _ => []
  | NullLiteral => []
  | StringLiteral _ => []
  | OtherNode _ children => children ≫= ids
  end.

(** [in_component n i]: the opening tag [i] lies in [n], a component, or in
    a component below [n]. *)
Definition in_component (n : node) (i : nat) : Prop :=
  (is_component n = true /\ i ∈ ids n)
  \/ exists q r, inside (q, r) n /\ is_component r = true /\ i ∈ ids r.

(** The child nodes of a node, in the order of the traversal. *)
Definition kids (n : node) : list node := (subnodes n).*2.

(** The opening element of an element; nothing for any other node. *)
Definition element_opening (n : node) : list JSXOpeningElement :=
  match n with JSXElement o _ => [o] | _ => [] end.

(** The attribute injector as a pass of its own, as the specification
    describes it: given the set of marked tags of the whole file and the
    path, one pass over every opening tag of the tree. *)
Fixpoint inject (F : gset nat) (path : string) (n : node) : node :=
  let sub := inject F path in
  match n with
  | JSXElement o children =>
      JSXElement
        (mkOpening (oid o) (tagName o)
           ((sub <$> attributes o) ++ pushed o (mkState F path)))
        (sub <$> children)
  | JSXFragment children => JSXFragment (sub <$> children)
  | JSXExpressionContainer expression => JSXExpressionContainer (sub expression)
  | JSXText v => JSXText v
  | JSXAttribute name value => JSXAttribute name (sub <$> value)
  | JSXSpreadAttribute argument => JSXSpreadAttribute (sub argument)
  | LogicalExpression op left' right' => LogicalExpression op (sub left') (sub right')
  | ConditionalExpression test consequent alternate =>
      ConditionalExpression (sub test) (sub consequent) (sub alternate)
  | ArrowFunctionExpression params body =>
      ArrowFunctionExpression (sub <$> params) (sub body)
  | FunctionExpression params body => FunctionExpression (sub <$> params) (sub body)
  | FunctionDeclaration id params body =>
      FunctionDeclaration id (sub <$> params) (sub body)
  | VariableDeclaration declarations => VariableDeclaration (sub <$> declarations)
  | VariableDeclarator id init => VariableDeclarator (sub id) (sub <$> init)
  | ReturnStatement argument => ReturnStatement (sub <$> argument)
  | BlockStatement body => BlockStatement (sub <$> body)
  | IfStatement test consequent alternate =>
      IfStatement (sub test) (sub consequent) (sub <$> alternate)
  | ExpressionStatement expression => ExpressionStatement (sub expression)
  | Identifier name => Identifier name
  | NullLiteral => NullLiteral
  | StringLiteral v => StringLiteral v
  | OtherNode type children => OtherNode type (sub <$> children)
  end.

(** The opening tag [o] after the injector: its attributes after the
    injector, then what the visitor pushes on [o]. *)
Definition inject_opening (F : gset nat) (path : string) (o : JSXOpeningElement)
    : JSXOpeningElement :=
  mkOpening (oid o) (tagName o)
    ((inject F path <$> attributes o) ++ pushed o (mkState F path)).

(** The identities and the opening tags of a file. *)
Definition program_ids (program : list node) : list nat := program ≫= ids.

Definition program_openings (program : list node) : list JSXOpeningElement :=
  program ≫= openings.

(** ** Notions used in the proofs *)

(** [rebuild n extra cs]: the node [n] with [cs] for child nodes and, for an
    element, [extra] at the end of the attributes of its opening tag. *)
Definition rebuild (n : node) (extra cs : list node) : node :=
  match n with
  | JSXElement o _ =>
      JSXElement
        (mkOpening (oid o) (tagName o) (take (length (attributes o)) cs ++ extra))
        (drop (length (attributes o)) cs)
  | JSXFragment _ => JSXFragment cs
  | JSXExpressionContainer e => JSXExpressionContainer (nth 0 cs e)
  | JSXText v => JSXText v
  | JSXAttribute name _ => JSXAttribute name (cs !! 0)
  | JSXSpreadAttribute a => JSXSpreadAttribute (nth 0 cs a)
  | LogicalExpression op l r => LogicalExpression op (nth 0 cs l) (nth 1 cs r)
  | ConditionalExpression t c a =>
      ConditionalExpression (nth 0 cs t) (nth 1 cs c) (nth 2 cs a)
  | ArrowFunctionExpression ps b =>
      ArrowFunctionExpression (take (length ps) cs) (nth (length ps) cs b)
  | FunctionExpression ps b =>
      FunctionExpression (take (length ps) cs) (nth (length ps) cs b)
  | FunctionDeclaration id ps b =>
      FunctionDeclaration id (take (length ps) cs) (nth (length ps) cs b)
  | VariableDeclaration _ => VariableDeclaration cs
  | VariableDeclarator id _ => VariableDeclarator (nth 0 cs id) (cs !! 1)
  | ReturnStatement _ => ReturnStatement (cs !! 0)
  | BlockStatement _ => BlockStatement cs
  | IfStatement t c _ => IfStatement (nth 0 cs t) (nth 1 cs c) (cs !! 2)
  | ExpressionStatement e => ExpressionStatement (nth 0 cs e)
  | Identifier name => Identifier name
  | NullLiteral => NullLiteral
  | StringLiteral v => StringLiteral v
  | OtherNode type _ => OtherNode type cs
  end.

(** What the [JSXOpeningElement] visitor pushes when the traversal is at [n]. *)
Definition self_pushed (n : node) (st : PluginPass) : list node :=
  match n with JSXElement o _ => pushed o st | _ => [] end.

(** [agrees F l M]: the set [M] is part of [F] and holds every identity of
    [l] that [F] holds. *)
Definition agrees (F : gset nat) (l : list nat) (M : gset nat) : Prop :=
  M ⊆ F /\ forall i, i ∈ l -> i ∈ F -> i ∈ M.

(** [tags_as_injector n]: on [n], the traversal of the plugin produces the
    tree of the injector for any set that agrees with the set it ends with. *)
Definition tags_as_injector (n : node) : Prop :=
  forall st F,
    NoDup (ids n) ->
    agrees F (ids n) (topmostElements (plugin_visit n st).2) ->
    (plugin_visit n st).1 = inject F (filePath st) n.

(** [same_traversal enter F path n]: a traversal runs on [n] after the
    injector as it runs on [n]. *)
Definition same_traversal {S : Type} (enter : parent -> node -> S -> S)
    (F : gset nat) (path : string) (n : node) : Prop :=
  forall p p' s,
    isJSXAttribute p' = isJSXAttribute p ->
    traverse enter p' (inject F path n) s = traverse enter p n s.

(** [if (t.isJSXElement(n)) { add(n.openingElement); foundTopmost = true; }],
    the step the visitors of the nested traversal repeat, and the same
    without the flag. *)
Definition tag_element (n : node) (s : Scan) : Scan :=
  match n with JSXElement o _ => tag o s | _ => s end.

Definition mark_element (n : node) (s : Scan) : Scan :=
  match n with JSXElement o _ => mkScan (add o (state s)) (foundTopmost s) | _ => s end.

(** The state with another path. *)
Definition with_path (path : string) (st : PluginPass) : PluginPass :=
  mkState (topmostElements st) path.

Definition scan_with_path (path : string) (s : Scan) : Scan :=
  mkScan (with_path path (state s)) (foundTopmost s).

(** ** The nodes a traversal visits, and what a scan marks *)

(** The visitor that records the nodes a traversal visits. *)
Definition record_visit (p : parent) (n : node) (visited : list (parent * node))
    : list (parent * node) :=
  visited ++ [(p, n)].

(** The nodes a traversal visits from [n] on, [n] first, each with its
    parent, in the order of the visits. *)
Definition preorder (p : parent) (n : node) : list (parent * node) :=
  traverse record_visit p n [].

(** The nodes [path.traverse] visits when [path.node] is [n]: the proper
    descendants of [n], in the order of the visits. *)
Definition descendants (n : node) : list (parent * node) :=
  traverse_keys (traverse record_visit) n [].

(** What a return site yields: the element a return statement or an arrow
    body returns, or the qualifying children of the fragment it returns;
    nothing for any other node. *)
Definition return_targets (n : node) : list nat :=
  match n with
  | ReturnStatement (Some (JSXElement o _)) => [oid o]
  | ReturnStatement (Some (JSXFragment children)) => children ≫= qualifying
  | ArrowFunctionExpression _ (JSXElement o _) => [oid o]
  | ArrowFunctionExpression _ (JSXFragment children) => children ≫= qualifying
  | _ => []
  end.

(** What a [{...}] slot yields when it is the value of an attribute. *)
Definition slot_targets (p : parent) (n : node) : list nat :=
  match n with
  | JSXExpressionContainer expression =>
      if isJSXAttribute p then resolved expression else []
  | _ => []
  end.

(** What the first return site of [l] that yields anything yields. *)
Fixpoint first_return (l : list (parent * node)) : list nat :=
  match l with
  | [] => []
  | (_, n) :: l' =>
      match return_targets n with
      | [] => first_return l'
      | targets => targets
      end
  end.

(** What the attribute-value slots of [l] yield, all of them. *)
Definition all_slots (l : list (parent * node)) : list nat :=
  l ≫= (fun pd => slot_targets pd.1 pd.2).

(** The opening tags the scan of the component [r] marks: what every
    attribute-value slot below [r] yields, and what the first return site
    below [r] that yields anything yields. *)
Definition component_targets (r : node) : list nat :=
  all_slots (descendants r) ++ first_return (descendants r).

(** The opening tags a run over [program] marks: those of every component of
    the file, at any depth. *)
Definition marked_ids (program : list node) : list nat :=
  descendants (Program program) ≫=
    (fun pd => if is_component pd.2 then component_targets pd.2 else []).

(** [returns_fragment site children]: the return site [site], a return
    statement or an arrow function with an expression body, returns the
    fragment whose children are [children]. *)
Definition returns_fragment (site : node) (children : list node) : Prop :=
  site = ReturnStatement (Some (JSXFragment children))
  \/ exists params, site = ArrowFunctionExpression params (JSXFragment children).

(** C5, as the claim words it: at every return site of every component of
    the file that returns a fragment, the opening tag of every qualifying
    child is marked, and in the tree of the run it carries the [__file-path]
    attribute with one and the same value for all of them. *)
Definition fragment_children_tagged_alike
    (file : option BabelFile) (program : list node) : Prop :=
  exists value,
    forall q r p site children child i,
      inside (q, r) (Program program) -> is_component r = true ->
      inside (p, site) r -> returns_fragment site children ->
      child ∈ children -> i ∈ qualifying child ->
      i ∈ topmostElements (transform file program).2
      /\ forall o,
           o ∈ program_openings (transform file program).1 -> oid o = i ->
           filePathAttribute value ∈ attributes o.

(** * Programs used as examples *)
Module Examples.

Definition el (i : nat) (tag : string) (attrs children : list node) : node :=
  JSXElement (mkOpening i tag attrs) children.

Definition file : option BabelFile := file_named "/test/src/pages/Index.tsx".

Definition tagged : node := filePathAttribute "src/pages/Index.tsx".

(** [function Index() {
       if (loading) { return <div>Loading</div>; }
       return <div>Main content</div>;
     }] *)
Definition two_returns : list node :=
  [FunctionDeclaration "Index" []
     (BlockStatement
        [IfStatement (Identifier "loading")
           (BlockStatement
              [ReturnStatement (Some (el 1 "div" [] [JSXText "Loading"]))])
           None;
         ReturnStatement (Some (el 2 "div" [] [JSXText "Main content"]))])].

(** [function Page() {
       if (compact) { return <><Header /></>; }
       return <div>Main</div>;
     }] *)
Definition fragment_then_element : list node :=
  [FunctionDeclaration "Page" []
     (BlockStatement
        [IfStatement (Identifier "compact")
           (BlockStatement
              [ReturnStatement (Some (JSXFragment [el 1 "Header" [] []]))])
           None;
         ReturnStatement (Some (el 2 "div" [] [JSXText "Main"]))])].

(** [const Status = (isOnline) => (isOnline ? <div>Online</div> : <div>Offline</div>);] *)
Definition ternary_arrow : list node :=
  [VariableDeclaration
     [VariableDeclarator (Identifier "Status")
        (Some (ArrowFunctionExpression [Identifier "isOnline"]
                 (ConditionalExpression (Identifier "isOnline")
                    (el 1 "div" [] [JSXText "Online"])
                    (el 2 "div" [] [JSXText "Offline"]))))]].

(** [function Status(isOnline) {
       return isOnline ? <div>Online</div> : <div>Offline</div>;
     }] *)
Definition ternary_return : list node :=
  [FunctionDeclaration "Status" [Identifier "isOnline"]
     (BlockStatement
        [ReturnStatement
           (Some (ConditionalExpression (Identifier "isOnline")
                    (el 1 "div" [] [JSXText "Online"])
                    (el 2 "div" [] [JSXText "Offline"])))])].

(** The slot [element={<PrivateRoute><MyBooks /></PrivateRoute>}]. *)
Definition private_route : node :=
  el 2 "PrivateRoute" [] [el 3 "MyBooks" [] []].

Definition element_attribute : node :=
  JSXAttribute (JSXIdentifier "element") (Some (JSXExpressionContainer private_route)).

Definition route : node :=
  el 1 "Route"
    [JSXAttribute (JSXIdentifier "path") (Some (StringLiteral "/books"));
     element_attribute] [].

(** The file of the second test of [test-plugin.js]: the usage alone,
    [<Route path="/books" element={<PrivateRoute><MyBooks /></PrivateRoute>} />;] *)
Definition route_usage : list node := [ExpressionStatement route].

(** [function App() { return <Routes><Route ... /></Routes>; }] *)
Definition route_in_component : list node :=
  [FunctionDeclaration "App" []
     (BlockStatement [ReturnStatement (Some (el 0 "Routes" [] [route]))])].

(** [const Layout = () => (<><Header /><Main /><Footer /></>);] *)
Definition layout_children : list node :=
  [el 1 "Header" [] []; el 2 "Main" [] []; el 3 "Footer" [] []].

Definition layout : list node :=
  [VariableDeclaration
     [VariableDeclarator (Identifier "Layout")
        (Some (ArrowFunctionExpression [] (JSXFragment layout_children)))]].

Definition layout_tagged : list node :=
  [VariableDeclaration
     [VariableDeclarator (Identifier "Layout")
        (Some (ArrowFunctionExpression []
                 (JSXFragment [el 1 "Header" [tagged] [];
                               el 2 "Main" [tagged] [];
                               el 3 "Footer" [tagged] []])))]].

(** [a && b && c && <Btn />], as the parser builds it. *)
Definition nested_conjunction : node :=
  LogicalExpression OpAnd
    (LogicalExpression OpAnd
       (LogicalExpression OpAnd (Identifier "a") (Identifier "b"))
       (Identifier "c"))
    (el 7 "Btn" [] []).

(** [a && (b && (c && <Btn />))] *)
Definition nested_conjunction_right : node :=
  LogicalExpression OpAnd (Identifier "a")
    (LogicalExpression OpAnd (Identifier "b")
       (LogicalExpression OpAnd (Identifier "c") (el 7 "Btn" [] []))).

(** [a && b] *)
Definition plain_conjunction : node :=
  LogicalExpression OpAnd (Identifier "a") (Identifier "b").

End Examples.

(** * More programs *)
Module Usage.

(** The callback of
    [function List() {
       const rows = items.map(function (x) { return <li />; });
       return <ul>{rows}</ul>;
     }] and the component itself. *)
Definition callback : node :=
  FunctionExpression [Identifier "x"]
    (BlockStatement [ReturnStatement (Some (Examples.el 1 "li" [] []))]).

Definition list_component : node :=
  FunctionDeclaration "List" []
    (BlockStatement
       [VariableDeclaration
          [VariableDeclarator (Identifier "rows")
             (Some (OtherNode "CallExpression"
                      [OtherNode "MemberExpression" [Identifier "items"; Identifier "map"];
                       callback]))];
        ReturnStatement
          (Some (Examples.el 2 "ul" [] [JSXExpressionContainer (Identifier "rows")]))]).

(** [class Panel extends React.Component { render() { return <div />; } }] *)
Definition class_component : list node :=
  [OtherNode "ClassDeclaration"
     [Identifier "Panel";
      OtherNode "MemberExpression" [Identifier "React"; Identifier "Component"];
      OtherNode "ClassBody"
        [OtherNode "ClassMethod"
           [Identifier "render";
            BlockStatement [ReturnStatement (Some (Examples.el 1 "div" [] []))]]]]].

(** [function Outer() {
       function Inner() { return <span />; }
       return <div><Inner /></div>;
     }] *)
Definition inner_component : node :=
  FunctionDeclaration "Inner" []
    (BlockStatement [ReturnStatement (Some (Examples.el 1 "span" [] []))]).

Definition outer_component : node :=
  FunctionDeclaration "Outer" []
    (BlockStatement
       [inner_component;
        ReturnStatement (Some (Examples.el 2 "div" [] [Examples.el 3 "Inner" [] []]))]).

(** [const Banner = () => <header />;] *)
Definition banner : list node :=
  [VariableDeclaration
     [VariableDeclarator (Identifier "Banner")
        (Some (ArrowFunctionExpression [] (Examples.el 5 "header" [] [])))]].

(** [function Menu(props) {
       const open = props.open;
       return <><Title />{open && <Items />}{open ? <Close /> : <Open />}</>;
     }] *)
Definition menu_children : list node :=
  [Examples.el 1 "Title" [] [];
   JSXExpressionContainer
     (LogicalExpression OpAnd (Identifier "open") (Examples.el 2 "Items" [] []));
   JSXExpressionContainer
     (ConditionalExpression (Identifier "open")
        (Examples.el 3 "Close" [] []) (Examples.el 4 "Open" [] []))].

Definition menu_component : node :=
  FunctionDeclaration "Menu" [Identifier "props"]
    (BlockStatement
       [VariableDeclaration
          [VariableDeclarator (Identifier "open")
             (Some (OtherNode "MemberExpression"
                      [Identifier "props"; Identifier "open"]))];
        ReturnStatement (Some (JSXFragment menu_children))]).

(** [const Layout = () =>
       (<><Header __file-path="src/legacy/Header.tsx" /><Main /></>);] *)
Definition pretagged_header : JSXOpeningElement :=
  mkOpening 1 "Header" [filePathAttribute "src/legacy/Header.tsx"].

Definition pretagged_children : list node :=
  [JSXElement pretagged_header []; Examples.el 2 "Main" [] []].

Definition pretagged_arrow : node :=
  ArrowFunctionExpression [] (JSXFragment pretagged_children).

Definition pretagged_declarator : node :=
  VariableDeclarator (Identifier "Layout") (Some pretagged_arrow).

Definition pretagged_layout : list node :=
  [VariableDeclaration [pretagged_declarator]].

End Usage.

(** * Reasoning principles *)

(** ** Induction on syntax trees, with the hypothesis on every child list *)
Section node_induction.
Variable P : node -> Prop.

Hypothesis HJSXElement : forall o children,
  Forall P (attributes o) -> Forall P children -> P (JSXElement o children).
Hypothesis HJSXFragment : forall children,
  Forall P children -> P (JSXFragment children).
Hypothesis HJSXExpressionContainer : forall e, P e -> P (JSXExpressionContainer e).
Hypothesis HJSXText : forall v, P (JSXText v).
Hypothesis HJSXAttribute : forall name value,
  Forall P (option_list value) -> P (JSXAttribute name value).
Hypothesis HJSXSpreadAttribute : forall a, P a -> P (JSXSpreadAttribute a).
Hypothesis HLogicalExpression : forall op l r,
  P l -> P r -> P (LogicalExpression op l r).
Hypothesis HConditionalExpression : forall t c a,
  P t -> P c -> P a -> P (ConditionalExpression t c a).
Hypothesis HArrowFunctionExpression : forall params body,
  Forall P params -> P body -> P (ArrowFunctionExpression params body).
Hypothesis HFunctionExpression : forall params body,
  Forall P params -> P body -> P (FunctionExpression params body).
Hypothesis HFunctionDeclaration : forall id params body,
  Forall P params -> P body -> P (FunctionDeclaration id params body).
Hypothesis HVariableDeclaration : forall ds,
  Forall P ds -> P (VariableDeclaration ds).
Hypothesis HVariableDeclarator : forall id init,
  P id -> Forall P (option_list init) -> P (VariableDeclarator id init).
Hypothesis HReturnStatement : forall argument,
  Forall P (option_list argument) -> P (ReturnStatement argument).
Hypothesis HBlockStatement : forall body,
  Forall P body -> P (BlockStatement body).
Hypothesis HIfStatement : forall t c a,
  P t -> P c -> Forall P (option_list a) -> P (IfStatement t c a).
Hypothesis HExpressionStatement : forall e, P e -> P (ExpressionStatement e).
Hypothesis HIdentifier : forall name, P (Identifier name).
Hypothesis HNullLiteral : P NullLiteral.
Hypothesis HStringLiteral : forall v, P (StringLiteral v).
Hypothesis HOtherNode : forall type children,
  Forall P children -> P (OtherNode type children).

Definition Forall_of (rec : forall n, P n) : forall l, Forall P l :=
  fix go l :=
    match l with
    | [] => @Stdlib.Lists.List.Forall_nil node P
    | x :: l' => @Stdlib.Lists.List.Forall_cons node P x l' (rec x) (go l')
    end.

Definition Forall_opt (rec : forall n, P n) (o : option node)
    : Forall P (option_list o) :=
  match o with
  | Some n => @Stdlib.Lists.List.Forall_cons node P n [] (rec n) (@Stdlib.Lists.List.Forall_nil node P)
  | None => @Stdlib.Lists.List.Forall_nil node P
  end.

Fixpoint node_ind' (n : node) : P n :=
  match n with
  | JSXElement o children =>
      HJSXElement o children
        (match o with mkOpening _ _ attrs => Forall_of node_ind' attrs end)
        (Forall_of node_ind' children)
  | JSXFragment children => HJSXFragment children (Forall_of node_ind' children)
  | JSXExpressionContainer e => HJSXExpressionContainer e (node_ind' e)
  | JSXText v => HJSXText v
  | JSXAttribute name value => HJSXAttribute name value (Forall_opt node_ind' value)
  | JSXSpreadAttribute a => HJSXSpreadAttribute a (node_ind' a)
  | LogicalExpression op l r => HLogicalExpression op l r (node_ind' l) (node_ind' r)
  | ConditionalExpression t c a =>
      HConditionalExpression t c a (node_ind' t) (node_ind' c) (node_ind' a)
  | ArrowFunctionExpression params body =>
      HArrowFunctionExpression params body (Forall_of node_ind' params) (node_ind' body)
  | FunctionExpression params body =>
      HFunctionExpression params body (Forall_of node_ind' params) (node_ind' body)
  | FunctionDeclaration id params body =>
      HFunctionDeclaration id params body (Forall_of node_ind' params) (node_ind' body)
  | VariableDeclaration ds => HVariableDeclaration ds (Forall_of node_ind' ds)
  | VariableDeclarator id init =>
      HVariableDeclarator id init (node_ind' id) (Forall_opt node_ind' init)
  | ReturnStatement argument =>
      HReturnStatement argument (Forall_opt node_ind' argument)
  | BlockStatement body => HBlockStatement body (Forall_of node_ind' body)
  | IfStatement t c a =>
      HIfStatement t c a (node_ind' t) (node_ind' c) (Forall_opt node_ind' a)
  | ExpressionStatement e => HExpressionStatement e (node_ind' e)
  | Identifier name => HIdentifier name
  | NullLiteral => HNullLiteral
  | StringLiteral v => HStringLiteral v
  | OtherNode type children => HOtherNode type children (Forall_of node_ind' children)
  end.
End node_induction.

(** ** Facts on JavaScript strings *)
Module JSStringFacts.
Import JSString.

Lemma append_cons a s t : String a s +:+ t = String a (s +:+ t).
Proof. reflexivity. Qed.

Lemma append_empty t : "" +:+ t = t.
Proof. reflexivity. Qed.

Lemma startsWith_spec s pat :
  startsWith s pat = true <-> exists post, s = pat +:+ post.
Proof.
  revert s. induction pat as [|a pat IH]; intros s; simpl.
  - split; [intros _; by exists s | done].
  - destruct s as [|b s].
    + split; [done | intros [post H]; discriminate].
    + destruct (Ascii.eqb a b) eqn:E.
      * apply Ascii.eqb_eq in E as ->. rewrite IH.
        split; intros [post H]; exists post; rewrite ?append_cons in *; congruence.
      * apply Ascii.eqb_neq in E.
        split; [done | intros [post H]; rewrite append_cons in H; congruence].
Qed.

Lemma indexOf_from_spec pat s : forall i,
  (indexOf_from s pat i = (-1)%Z /\ forall pre, ~ occurs_at s pat pre) \/
  (exists pre, occurs_at s pat pre /\
     indexOf_from s pat i = (i + Z.of_nat (String.length pre))%Z /\
     forall pre', occurs_at s pat pre' -> String.length pre <= String.length pre').
Proof.
  induction s as [|c s IH]; intros i; simpl.
  - destruct (startsWith "" pat) eqn:E.
    + right. exists "". apply startsWith_spec in E as [post E].
      split; [by exists post|]. split; simpl; lia.
    + left. split; [done|]. intros pre [post H].
      destruct pre; [|discriminate]. rewrite append_empty in H.
      assert (startsWith "" pat = true) by (apply startsWith_spec; eauto).
      congruence.
  - destruct (startsWith (String c s) pat) eqn:E.
    + right. exists "". apply startsWith_spec in E as [post E].
      split; [by exists post|]. split; simpl; lia.
    + assert (Hne : forall pre, occurs_at (String c s) pat pre ->
                exists pre', pre = String c pre' /\ occurs_at s pat pre').
      { intros [|c' pre'] [post H]; rewrite ?append_cons, ?append_empty in H.
        - assert (startsWith (String c s) pat = true)
            by (apply startsWith_spec; eauto).
          congruence.
        - injection H as -> H. exists pre'. split; [done | by exists post]. }
      destruct (IH (i + 1)%Z) as [[H1 H2] | (pre & Hocc & H1 & H2)].
      * left. split; [done|]. intros pre Hpre.
        destruct (Hne _ Hpre) as (pre' & -> & H'). by apply (H2 pre').
      * right. exists (String c pre). split.
        { destruct Hocc as [post ->]. exists post. by rewrite append_cons. }
        split; [rewrite H1; simpl; lia|].
        intros pre' Hpre'. destruct (Hne _ Hpre') as (pre'' & -> & H').
        simpl. apply H2 in H'. lia.
Qed.

Lemma drop_units_app pre s : drop_units (String.length pre) (pre +:+ s) = s.
Proof. induction pre; rewrite ?append_cons, ?append_empty; simpl; auto. Qed.

Lemma indexOf_absent s pat :
  (forall pre, ~ occurs_at s pat pre) -> indexOf s pat = (-1)%Z.
Proof.
  intros Habs. unfold indexOf.
  destruct (indexOf_from_spec pat s 0) as [[H _] | (pre & Hocc & _)]; [done|].
  by destruct (Habs pre).
Qed.

Lemma indexOf_present s pat pre0 :
  occurs_at s pat pre0 ->
  exists pre post, s = pre +:+ pat +:+ post /\
    (forall pre', occurs_at s pat pre' -> String.length pre <= String.length pre') /\
    indexOf s pat = Z.of_nat (String.length pre) /\
    substring s (indexOf s pat) = pat +:+ post.
Proof.
  intros Hocc0. unfold indexOf.
  destruct (indexOf_from_spec pat s 0) as [[_ H] | (pre & [post Hs] & Hi & Hmin)].
  { by destruct (H pre0). }
  exists pre, post. split; [done|]. split; [done|]. split; [rewrite Hi; lia|].
  rewrite Hi. unfold substring.
  replace (Z.to_nat (0 + Z.of_nat (String.length pre))) with (String.length pre) by lia.
  rewrite Hs at 1. apply drop_units_app.
Qed.

Lemma or_else_empty s : or_else s "" = s.
Proof. by destruct s. Qed.

End JSStringFacts.

(** ** Facts on the [Program] visitor *)

Lemma Program_enter_try_normal file st :
  exists st', Program_enter_try file st = Normal st'.
Proof.
  unfold Program_enter_try.
  destruct file as [[[o|]]|]; simpl; repeat case_bool_decide; eauto.
Qed.

Lemma Program_enter_filePath path :
  filePath (Program_enter (file_named path)) =
    if bool_decide (JSString.indexOf path "src/" ≠ (-1)%Z)
    then JSString.substring path (JSString.indexOf path "src/")
    else path.
Proof.
  unfold Program_enter, Program_enter_try, file_named. simpl.
  rewrite JSStringFacts.or_else_empty. by case_bool_decide.
Qed.

Lemma Program_enter_no_path file :
  supplied_path file = None -> filePath (Program_enter file) = "".
Proof.
  unfold Program_enter, Program_enter_try, supplied_path.
  destruct file as [[[[[name|]]|]]|]; simpl; try done; intros _;
    repeat case_bool_decide; simpl; try done.
Qed.

(** ** Facts on the [JSXOpeningElement] visitor *)

Lemma opening_eta (o : JSXOpeningElement) :
  mkOpening (oid o) (tagName o) (attributes o) = o.
Proof. by destruct o. Qed.

Lemma pushed_not_marked o st : oid o ∉ topmostElements st -> pushed o st = [].
Proof. intros H. unfold pushed. by rewrite bool_decide_eq_false_2. Qed.

Lemma pushed_has o st : hasAttribute o = true -> pushed o st = [].
Proof. intros H. unfold pushed. rewrite H. by case_bool_decide. Qed.

Lemma pushed_new o st :
  oid o ∈ topmostElements st -> hasAttribute o = false ->
  pushed o st = [filePathAttribute (JSString.or_else (filePath st) "unknown")].
Proof. intros Hin H. unfold pushed. rewrite H. by rewrite bool_decide_eq_true_2. Qed.

Lemma visitor_unchanged o st : pushed o st = [] -> JSXOpeningElement_visitor o st = o.
Proof.
  intros H. unfold JSXOpeningElement_visitor. rewrite H, app_nil_r. apply opening_eta.
Qed.

Lemma hasAttribute_visitor o st :
  oid o ∈ topmostElements st -> hasAttribute (JSXOpeningElement_visitor o st) = true.
Proof.
  intros Hin. destruct (hasAttribute o) eqn:E.
  - by rewrite visitor_unchanged by by apply pushed_has.
  - unfold hasAttribute, JSXOpeningElement_visitor. simpl.
    rewrite (pushed_new _ _ Hin E), existsb_app. simpl. apply orb_true_r.
Qed.

Lemma hasAttribute_count o : hasAttribute o = true <-> 0 < count_filePath o.
Proof.
  unfold hasAttribute, count_filePath. induction (attributes o) as [|a l IH]; simpl.
  - split; [done | lia].
  - destruct (isFilePathAttribute a) eqn:E; simpl.
    + rewrite filter_cons_True by done. simpl. split; [lia | done].
    + rewrite filter_cons_False by congruence. apply IH.
Qed.

Lemma count_filePath_visitor o st :
  count_filePath (JSXOpeningElement_visitor o st) =
    count_filePath o + length (pushed o st).
Proof.
  unfold count_filePath, JSXOpeningElement_visitor. simpl.
  rewrite filter_app, length_app. f_equal.
  unfold pushed. case_bool_decide; [|done]. by destruct (hasAttribute o).
Qed.

Lemma visitor_idempotent o st st' :
  (oid o ∈ topmostElements st' -> oid o ∈ topmostElements st) ->
  JSXOpeningElement_visitor (JSXOpeningElement_visitor o st) st' =
    JSXOpeningElement_visitor o st.
Proof.
  intros Hsub. apply visitor_unchanged.
  destruct (decide (oid o ∈ topmostElements st')) as [Hin|Hin].
  - apply pushed_has, hasAttribute_visitor, Hsub, Hin.
  - by apply pushed_not_marked.
Qed.

(** ** The end of a chain of [&&] *)

Lemma extractJSXFromLogicalAnd_rightmost expr :
  extractJSXFromLogicalAnd expr =
    match rightmost_operand expr with
    | JSXElement o children => Some (JSXElement o children)
    | _ => None
    end.
Proof.
  induction expr using node_ind'; try reflexivity.
  destruct op; simpl; auto.
Qed.

(** ** Facts on the visitors of the nested traversal *)

Lemma tagFragmentChild_marks child s :
  topmostElements (state (tagFragmentChild child s)) =
    list_to_set (qualifying child) ∪ topmostElements (state s).
Proof.
  destruct child as [| |expression| | | | | | | | | | | | | | | | | |];
    simpl; try set_solver.
  destruct expression as [| | | | | |op l r|t c a| | | | | | | | | | | | |];
    simpl; try set_solver.
  - destruct op; simpl; try set_solver.
    rewrite extractJSXFromLogicalAnd_rightmost.
    destruct (rightmost_operand r); simpl; set_solver.
  - destruct c, a; simpl; set_solver.
Qed.

Lemma tagFragmentChild_filePath child s :
  filePath (state (tagFragmentChild child s)) = filePath (state s).
Proof.
  destruct child as [| |expression| | | | | | | | | | | | | | | | | |];
    simpl; try done.
  destruct expression as [| | | | | |op l r|t c a| | | | | | | | | | | | |];
    simpl; try done.
  - destruct op; simpl; try done.
    by destruct (extractJSXFromLogicalAnd r) as [[]|].
  - by destruct c, a.
Qed.

Lemma tagFragmentChildren_marks children s :
  topmostElements (state (tagFragmentChildren (JSXFragment children) s)) =
    list_to_set (children ≫= qualifying) ∪ topmostElements (state s).
Proof.
  simpl. revert s. induction children as [|c l IH]; intros s; simpl.
  - set_solver.
  - rewrite IH, tagFragmentChild_marks, list_to_set_app_L. set_solver.
Qed.

Lemma tagFragmentChildren_filePath fragment s :
  filePath (state (tagFragmentChildren fragment s)) = filePath (state s).
Proof.
  destruct fragment; try done. simpl. revert s.
  induction children as [|c l IH]; intros s; simpl; [done|].
  by rewrite IH, tagFragmentChild_filePath.
Qed.

Lemma JSXExpressionContainer_visitor_foundTopmost p expression s :
  foundTopmost (JSXExpressionContainer_visitor p expression s) = foundTopmost s.
Proof.
  unfold JSXExpressionContainer_visitor. destruct (isJSXAttribute p); [|done].
  destruct expression as [| | | | | |op l r|t c a| | | | | | | | | | | | |];
    simpl; try done.
  - destruct op; simpl; try done.
    by destruct (extractJSXFromLogicalAnd r) as [[]|].
  - by destruct c, a.
Qed.

Lemma JSXExpressionContainer_visitor_marks p expression s :
  isJSXAttribute p = true ->
  topmostElements (state (JSXExpressionContainer_visitor p expression s)) =
    list_to_set (resolved expression) ∪ topmostElements (state s).
Proof.
  intros Hp. unfold JSXExpressionContainer_visitor. rewrite Hp.
  destruct expression as [| | | | | |op l r|t c a| | | | | | | | | | | | |];
    simpl; try set_solver.
  - destruct op; simpl; try set_solver.
    rewrite extractJSXFromLogicalAnd_rightmost.
    destruct (rightmost_operand r); simpl; set_solver.
  - destruct c, a; simpl; set_solver.
Qed.

Lemma JSXExpressionContainer_visitor_not_attribute p expression s :
  isJSXAttribute p = false -> JSXExpressionContainer_visitor p expression s = s.
Proof. intros Hp. unfold JSXExpressionContainer_visitor. by rewrite Hp. Qed.

(** ** The child nodes of a node and the traversal order *)

Lemma fold_left_fmap {A B C : Type} (f : A -> B -> A) (g : C -> B) l a :
  fold_left f (g <$> l) a = fold_left (fun a c => f a (g c)) l a.
Proof. revert a. induction l; simpl; auto. Qed.

Lemma traverse_keys_subnodes {S : Type} (visit : parent -> node -> S -> S) n s :
  traverse_keys visit n s = fold_left (fun s pc => visit pc.1 pc.2 s) (subnodes n) s.
Proof.
  destruct n; simpl; unfold visit_list, visit_opt;
    rewrite ?fold_left_app, ?fold_left_fmap; simpl; try reflexivity;
    repeat match goal with o : option node |- _ => destruct o end; reflexivity.
Qed.

Lemma traverse_unfold {S : Type} (enter : parent -> node -> S -> S) p n s :
  traverse enter p n s = traverse_keys (traverse enter) n (enter p n s).
Proof. by destruct n. Qed.

(** Induction with the hypothesis on every child node. *)
Lemma node_subnodes_ind (P : node -> Prop) :
  (forall n, (forall p c, (p, c) ∈ subnodes n -> P c) -> P n) -> forall n, P n.
Proof.
  intros H. induction n using node_ind'; apply H; simpl; intros p c Hin;
    repeat match goal with
      | H : Forall _ _ |- _ => rewrite Forall_forall in H
      | H : _ ∈ app _ _ |- _ => apply elem_of_app in H as [H|H]
      | H : _ ∈ _ <$> _ |- _ => apply list_elem_of_fmap in H as (? & [= -> ->] & H)
      | H : _ ∈ _ :: _ |- _ => apply elem_of_cons in H as [[= -> ->]|H]
      | H : _ ∈ [] |- _ => by apply elem_of_nil in H
      end; auto.
Qed.

(** ** Traversals whose visitors only move the state upwards *)
Section traverse_facts.
Context {S : Type} (enter : parent -> node -> S -> S).
Context (le : relation S) `{!PreOrder le}.
Hypothesis enter_le : forall p n s, le s (enter p n s).

Lemma fold_le (l : list (parent * node)) (visit : parent -> node -> S -> S) s :
  (forall p c, (p, c) ∈ l -> forall s, le s (visit p c s)) ->
  le s (fold_left (fun s pc => visit pc.1 pc.2 s) l s).
Proof.
  revert s. induction l as [|[p c] l IH]; intros s H; simpl; [done|].
  etrans; [apply (H p c); left|]. apply IH. intros ????. apply H. by right.
Qed.

Lemma traverse_le n : forall p s, le s (traverse enter p n s).
Proof.
  induction n as [n IH] using node_subnodes_ind. intros p s.
  rewrite traverse_unfold, traverse_keys_subnodes.
  etrans; [apply (enter_le p n)|]. apply fold_le. intros q c Hc s'. by eapply IH.
Qed.

Lemma traverse_keys_le n s : le s (traverse_keys (traverse enter) n s).
Proof.
  rewrite traverse_keys_subnodes. apply fold_le. intros p c _ s'. apply traverse_le.
Qed.

(** The visitor runs at every child, and what it leaves in the state is
    below the final state. *)
Lemma fold_reaches (l : list (parent * node)) p c s :
  (p, c) ∈ l ->
  exists s0, le s s0 /\
    le (traverse enter p c s0)
       (fold_left (fun s pc => traverse enter pc.1 pc.2 s) l s).
Proof.
  revert s. induction l as [|[q d] l IH]; intros s Hin.
  { by apply elem_of_nil in Hin. }
  apply elem_of_cons in Hin as [[= -> ->]|Hin]; simpl.
  - exists s. split; [done|]. apply fold_le. intros ????. apply traverse_le.
  - destruct (IH (traverse enter q d s) Hin) as (s0 & H1 & H2).
    exists s0. split; [|done]. etrans; [apply traverse_le|done].
Qed.

(** The same at every descendant. *)
Lemma traverse_reaches pd n :
  inside pd n ->
  forall s, exists s0, le s s0 /\
    le (enter pd.1 pd.2 s0) (traverse_keys (traverse enter) n s).
Proof.
  induction 1 as [n Hin | n p c Hin _ IH]; intros s;
    rewrite traverse_keys_subnodes.
  - destruct pd as [p d].
    destruct (fold_reaches _ _ _ s Hin) as (s0 & H1 & H2).
    exists s0. split; [done|]. etrans; [|done].
    rewrite traverse_unfold. apply traverse_keys_le.
  - destruct (fold_reaches _ _ _ s Hin) as (s0 & H1 & H2).
    destruct (IH (enter p c s0)) as (s1 & H3 & H4).
    exists s1. split.
    + etrans; [done|]. etrans; [apply enter_le|done].
    + etrans; [exact H4|]. rewrite <- traverse_unfold. exact H2.
Qed.

End traverse_facts.

#[global] Instance state_le_preorder : PreOrder state_le.
Proof.
  split.
  - by intros st.
  - intros st1 st2 st3 [H1 H2] [H3 H4]. split; [set_solver | congruence].
Qed.

#[global] Instance scan_le_preorder : PreOrder scan_le.
Proof.
  split.
  - by intros s.
  - intros s1 s2 s3 H1 H2. unfold scan_le in *. by etrans.
Qed.

Lemma ReturnStatement_visitor_marks argument s :
  topmostElements (state (ReturnStatement_visitor argument s)) =
    (if foundTopmost s then ∅
     else match argument with
          | Some (JSXElement o _) => {[oid o]}
          | Some (JSXFragment children) => list_to_set (children ≫= qualifying)
          | _ => ∅
          end) ∪ topmostElements (state s).
Proof.
  unfold ReturnStatement_visitor. destruct (foundTopmost s); [set_solver|].
  destruct argument as [[]|]; try set_solver.
  apply tagFragmentChildren_marks.
Qed.

Lemma ArrowFunctionExpression_visitor_marks body s :
  topmostElements (state (ArrowFunctionExpression_visitor body s)) =
    (if foundTopmost s then ∅
     else match body with
          | JSXElement o _ => {[oid o]}
          | JSXFragment children => list_to_set (children ≫= qualifying)
          | _ => ∅
          end) ∪ topmostElements (state s).
Proof.
  unfold ArrowFunctionExpression_visitor. destruct (foundTopmost s); [set_solver|].
  destruct body; try set_solver.
  apply tagFragmentChildren_marks.
Qed.

Lemma JSXExpressionContainer_visitor_filePath p expression s :
  filePath (state (JSXExpressionContainer_visitor p expression s)) = filePath (state s).
Proof.
  unfold JSXExpressionContainer_visitor. destruct (isJSXAttribute p); [|done].
  destruct expression as [| | | | | |op l r|t c a| | | | | | | | | | | | |];
    simpl; try done.
  - destruct op; simpl; try done.
    by destruct (extractJSXFromLogicalAnd r) as [[]|].
  - by destruct c, a.
Qed.

Lemma scan_enter_le p n s : scan_le s (scan_enter p n s).
Proof.
  split.
  - destruct n; simpl; try done.
    + destruct (isJSXAttribute p) eqn:Hp.
      * rewrite JSXExpressionContainer_visitor_marks by done. set_solver.
      * by rewrite JSXExpressionContainer_visitor_not_attribute.
    + rewrite ArrowFunctionExpression_visitor_marks. set_solver.
    + rewrite ReturnStatement_visitor_marks. set_solver.
  - destruct n; simpl; try done.
    + by rewrite JSXExpressionContainer_visitor_filePath.
    + unfold ArrowFunctionExpression_visitor. destruct (foundTopmost s); [done|].
      destruct n; try done. by rewrite tagFragmentChildren_filePath.
    + unfold ReturnStatement_visitor. destruct (foundTopmost s); [done|].
      destruct argument as [[]|]; try done. by rewrite tagFragmentChildren_filePath.
Qed.

Lemma findTopmostJSX_le n st : state_le st (findTopmostJSX n st).
Proof.
  unfold findTopmostJSX.
  apply (traverse_keys_le scan_enter scan_le scan_enter_le n (mkScan st false)).
Qed.

Lemma plugin_enter_le n st : state_le st (plugin_enter n st).
Proof.
  destruct n; simpl; try done.
  - apply findTopmostJSX_le.
  - destruct (isFunction init); [apply findTopmostJSX_le | done].
Qed.

(** ** The state of the plugin does not depend on the pushed attributes *)

Lemma rewrite_list_snd f g l :
  Forall (fun n => forall st, (f n st).2 = g n st) l ->
  forall st, (rewrite_list f l st).2 = visit_list g l st.
Proof.
  unfold visit_list. induction 1 as [|n l Hn _ IH]; intros st; simpl; [done|].
  specialize (Hn st). destruct (f n st) as [n' st1]. simpl in Hn. subst st1.
  specialize (IH (g n st)). by destruct (rewrite_list f l (g n st)).
Qed.

Lemma rewrite_opt_snd f g o :
  Forall (fun n => forall st, (f n st).2 = g n st) (option_list o) ->
  forall st, (rewrite_opt f o st).2 = visit_opt g o st.
Proof.
  destruct o as [n|]; simpl; [|done]. intros Hn%Forall_inv st.
  specialize (Hn st). by destruct (f n st).
Qed.

Lemma plugin_visit_unfold n st :
  plugin_visit n st = rewrite_keys plugin_visit n (plugin_enter n st).
Proof. by destruct n. Qed.

Ltac snd_step :=
  match goal with
  | H : Forall _ ?l |- context [rewrite_list plugin_visit ?l ?st] =>
      match goal with
      | |- context [visit_list (traverse _ ?q) l _] =>
          let E := fresh "E" in
          pose proof (rewrite_list_snd plugin_visit (plugin_state q) l
                        (Forall_impl _ _ _ H (fun n Hn => Hn q)) st) as E;
          destruct (rewrite_list plugin_visit l st); simpl in E; subst
      end
  | H : Forall _ (option_list ?o) |- context [rewrite_opt plugin_visit ?o ?st] =>
      match goal with
      | |- context [visit_opt (traverse _ ?q) o _] =>
          let E := fresh "E" in
          pose proof (rewrite_opt_snd plugin_visit (plugin_state q) o
                        (Forall_impl _ _ _ H (fun n Hn => Hn q)) st) as E;
          destruct (rewrite_opt plugin_visit o st); simpl in E; subst
      end
  | H : forall p st, (plugin_visit ?n st).2 = _ |- context [plugin_visit ?n ?st] =>
      match goal with
      | |- context [traverse _ ?q n _] =>
          let E := fresh "E" in
          pose proof (H q st) as E;
          destruct (plugin_visit n st); simpl in E; subst
      end
  end.

Lemma plugin_visit_state n : forall p st, (plugin_visit n st).2 = plugin_state p n st.
Proof.
  unfold plugin_state.
  induction n using node_ind'; intros p st;
    rewrite plugin_visit_unfold, traverse_unfold; cbv beta;
    match goal with
    | |- context [plugin_enter ?n st] => generalize (plugin_enter n st) as st1
    end; intros st1; clear st; simpl;
    unfold plugin_state in *; repeat snd_step; reflexivity.
Qed.

(** ** The state after a run of the plugin *)

Lemma plugin_enter_component n st :
  is_component n = true -> plugin_enter n st = findTopmostJSX n st.
Proof. destruct n; simpl; try done. by intros ->. Qed.

Lemma transform_state file program :
  (transform file program).2 =
    traverse_keys plugin_state (Program program) (Program_enter file).
Proof.
  unfold transform. simpl. apply rewrite_list_snd.
  apply Forall_forall. intros n _ st. apply plugin_visit_state.
Qed.

Lemma transform_filePath file program :
  filePath (transform file program).2 = filePath (Program_enter file).
Proof.
  rewrite transform_state. symmetry.
  apply (traverse_keys_le (fun _ => plugin_enter) state_le (fun _ => plugin_enter_le)).
Qed.

(** Every component of the file is scanned, and what its scan marks stays
    marked. *)
Lemma transform_scans file program q r :
  inside (q, r) (Program program) -> is_component r = true ->
  exists st, topmostElements (findTopmostJSX r st) ⊆
    topmostElements (transform file program).2.
Proof.
  intros Hin Hr. rewrite transform_state.
  destruct (traverse_reaches (fun _ => plugin_enter) state_le
              (fun _ => plugin_enter_le) (q, r) _ Hin (Program_enter file))
    as (st & _ & [H _]).
  exists st. simpl in H. by rewrite plugin_enter_component in H.
Qed.

(** The visitor of the nested traversal runs at every descendant of the
    component, and what it marks there stays marked. *)
Lemma findTopmostJSX_visits p d r st :
  inside (p, d) r ->
  exists s, topmostElements (state (scan_enter p d s)) ⊆
    topmostElements (findTopmostJSX r st).
Proof.
  intros Hin. unfold findTopmostJSX.
  destruct (traverse_reaches scan_enter scan_le scan_enter_le (p, d) r Hin
              (mkScan st false)) as (s & _ & [H _]).
  by exists s.
Qed.

Lemma not_elem_of_by_compute (i : nat) (X : gset nat) :
  bool_decide (i ∈ X) = false -> i ∉ X.
Proof. intros H Hin. by rewrite bool_decide_eq_true_2 in H. Qed.

(** ** The opening tags of a tree *)

Lemma fmap_snd_pair {A B : Type} (a : A) (l : list B) : (pair a <$> l).*2 = l.
Proof. induction l; simpl; f_equal; auto. Qed.

Lemma openings_kids n : openings n = element_opening n ++ (kids n ≫= openings).
Proof.
  unfold kids.
  destruct n; simpl; rewrite ?fmap_app, ?fmap_snd_pair, ?bind_app; simpl;
    rewrite ?app_nil_r; try reflexivity;
    repeat match goal with o : option node |- _ => destruct o end;
    simpl; rewrite ?app_nil_r; reflexivity.
Qed.

Lemma ids_kids n : ids n = element_id n ++ (kids n ≫= ids).
Proof.
  unfold kids.
  destruct n; simpl; rewrite ?fmap_app, ?fmap_snd_pair, ?bind_app; simpl;
    rewrite ?app_nil_r; try reflexivity;
    repeat match goal with o : option node |- _ => destruct o end;
    simpl; rewrite ?app_nil_r; reflexivity.
Qed.

Lemma fmap_bind_openings (l : list node) :
  Forall (fun n => ids n = oid <$> openings n) l ->
  l ≫= ids = oid <$> (l ≫= openings).
Proof.
  induction 1 as [|n l Hn _ IH]; [done|]. by rewrite !bind_cons, fmap_app, Hn, IH.
Qed.

Lemma ids_openings n : ids n = oid <$> openings n.
Proof.
  induction n as [n IH] using node_subnodes_ind.
  rewrite ids_kids, openings_kids, fmap_app. f_equal; [by destruct n|].
  apply fmap_bind_openings, Forall_forall. intros c Hc.
  apply list_elem_of_fmap in Hc as ([p c'] & -> & Hc). by eapply IH.
Qed.

(** ** A traversal marks only opening tags of the tree it visits *)
Section traverse_bound.
Context {S : Type} (enter : parent -> node -> S -> S) (marks : S -> gset nat).
Hypothesis enter_bound : forall p n s,
  marks (enter p n s) ⊆ marks s ∪ list_to_set (ids n).

Lemma fold_bound (l : list (parent * node)) (visit : parent -> node -> S -> S) s :
  (forall p c, (p, c) ∈ l -> forall s, marks (visit p c s) ⊆ marks s ∪ list_to_set (ids c)) ->
  marks (fold_left (fun s pc => visit pc.1 pc.2 s) l s)
    ⊆ marks s ∪ list_to_set (l.*2 ≫= ids).
Proof.
  revert s. induction l as [|[p c] l IH]; intros s H; simpl; [set_solver|].
  etrans; [apply IH; intros ????; apply H; by right|].
  specialize (H p c (list_elem_of_here _ _) s).
  rewrite list_to_set_app_L. set_solver.
Qed.

Lemma traverse_bound n : forall p s,
  marks (traverse enter p n s) ⊆ marks s ∪ list_to_set (ids n).
Proof.
  induction n as [n IH] using node_subnodes_ind. intros p s.
  rewrite traverse_unfold, traverse_keys_subnodes, ids_kids, list_to_set_app_L.
  etrans; [apply fold_bound; intros q c Hc s'; by eapply IH|].
  pose proof (enter_bound p n s) as H. rewrite ids_kids, list_to_set_app_L in H.
  fold (kids n). set_solver.
Qed.

Lemma traverse_keys_bound n s :
  marks (traverse_keys (traverse enter) n s) ⊆ marks s ∪ list_to_set (kids n ≫= ids).
Proof.
  rewrite traverse_keys_subnodes. apply fold_bound. intros p c _ s'. apply traverse_bound.
Qed.
End traverse_bound.

Lemma element_id_ids n : element_id n ⊆ ids n.
Proof. destruct n; simpl; set_solver. Qed.

Lemma rightmost_operand_ids expr : element_id (rightmost_operand expr) ⊆ ids expr.
Proof.
  induction expr using node_ind'; try apply element_id_ids.
  destruct op; try apply element_id_ids. simpl in *. set_solver.
Qed.

Lemma resolved_ids expression : resolved expression ⊆ ids expression.
Proof.
  destruct expression; simpl; try set_solver.
  - destruct operator; try set_solver.
    pose proof (rightmost_operand_ids expression2). set_solver.
  - pose proof (element_id_ids expression2). pose proof (element_id_ids expression3).
    set_solver.
Qed.

Lemma qualifying_ids child : qualifying child ⊆ ids child.
Proof. destruct child; simpl; try set_solver. apply resolved_ids. Qed.

Lemma qualifying_bind_ids children : children ≫= qualifying ⊆ children ≫= ids.
Proof.
  induction children as [|c l IH]; simpl; [done|].
  pose proof (qualifying_ids c). set_solver.
Qed.

Lemma scan_enter_bound p n s :
  topmostElements (state (scan_enter p n s))
    ⊆ topmostElements (state s) ∪ list_to_set (ids n).
Proof.
  destruct n; simpl; try set_solver.
  - destruct (isJSXAttribute p) eqn:Hp.
    + rewrite JSXExpressionContainer_visitor_marks by done.
      pose proof (resolved_ids n). set_solver.
    + rewrite JSXExpressionContainer_visitor_not_attribute by done. set_solver.
  - rewrite ArrowFunctionExpression_visitor_marks.
    destruct (foundTopmost s); [set_solver|].
    destruct n; simpl; try set_solver.
    pose proof (qualifying_bind_ids children). set_solver.
  - rewrite ReturnStatement_visitor_marks.
    destruct (foundTopmost s); [set_solver|].
    destruct argument as [[]|]; simpl; try set_solver.
    pose proof (qualifying_bind_ids children). set_solver.
Qed.

Lemma kids_ids n : kids n ≫= ids ⊆ ids n.
Proof. rewrite ids_kids. set_solver. Qed.

Lemma findTopmostJSX_bound n st :
  topmostElements (findTopmostJSX n st) ⊆ topmostElements st ∪ list_to_set (ids n).
Proof.
  unfold findTopmostJSX.
  etrans; [apply (traverse_keys_bound scan_enter (fun s => topmostElements (state s))
                    scan_enter_bound)|].
  pose proof (kids_ids n). set_solver.
Qed.

Lemma plugin_enter_bound n st :
  topmostElements (plugin_enter n st) ⊆ topmostElements st ∪ list_to_set (ids n).
Proof.
  destruct n; try (simpl; set_solver).
  - apply findTopmostJSX_bound.
  - unfold plugin_enter. destruct (isFunction init); [apply findTopmostJSX_bound | set_solver].
Qed.

Lemma plugin_state_bound p n st :
  topmostElements (plugin_state p n st) ⊆ topmostElements st ∪ list_to_set (ids n).
Proof.
  apply (traverse_bound (fun _ => plugin_enter) topmostElements
           (fun _ => plugin_enter_bound)).
Qed.

(** ** The traversal of the plugin, child node by child node *)

Lemma rewrite_list_app f l1 l2 st :
  rewrite_list f (l1 ++ l2) st =
    ((rewrite_list f l1 st).1 ++ (rewrite_list f l2 (rewrite_list f l1 st).2).1,
     (rewrite_list f l2 (rewrite_list f l1 st).2).2).
Proof.
  revert st. induction l1 as [|n l1 IH]; intros st; simpl.
  - by destruct (rewrite_list f l2 st).
  - destruct (f n st) as [n' st1]. rewrite IH.
    by destruct (rewrite_list f l1 st1).
Qed.

Lemma rewrite_list_length f l st : length (rewrite_list f l st).1 = length l.
Proof.
  revert st. induction l as [|n l IH]; intros st; simpl; [done|].
  destruct (f n st) as [n' st1]. specialize (IH st1).
  destruct (rewrite_list f l st1). simpl in *. by f_equal.
Qed.

Lemma rewrite_list_option f o st :
  rewrite_list f (option_list o) st =
    (option_list (rewrite_opt f o st).1, (rewrite_opt f o st).2).
Proof. destruct o as [n|]; simpl; [|done]. by destruct (f n st). Qed.

Lemma kids_unfold n :
  kids n =
    match n with
    | JSXElement o children => attributes o ++ children
    | JSXFragment children => children
    | JSXExpressionContainer expression => [expression]
    | JSXText _ => []
    | JSXAttribute _ value => option_list value
    | JSXSpreadAttribute argument => [argument]
    | LogicalExpression _ left' right' => [left'; right']
    | ConditionalExpression test consequent alternate => [test; consequent; alternate]
    | ArrowFunctionExpression params body => params ++ [body]
    | FunctionExpression params body => params ++ [body]
    | FunctionDeclaration _ params body => params ++ [body]
    | VariableDeclaration declarations => declarations
    | VariableDeclarator id init => id :: option_list init
    | ReturnStatement argument => option_list argument
    | BlockStatement body => body
    | IfStatement test consequent alternate =>
        test :: consequent :: option_list alternate
    | ExpressionStatement expression => [expression]
    | Identifier _ => []
    | NullLiteral => []
    | StringLiteral _ => []
    | OtherNode _ children => children
    end.
Proof.
  unfold kids. destruct n; simpl; rewrite ?fmap_app, ?fmap_snd_pair; reflexivity.
Qed.

Lemma let_pair {A B C : Type} (x : A * B) (f : A -> B -> C) :
  (let '(a, b) := x in f a b) = f x.1 x.2.
Proof. by destruct x. Qed.

Lemma take_length_app {A : Type} (l k : list A) n : length l = n -> take n (l ++ k) = l.
Proof. intros <-. by rewrite take_app_length. Qed.

Lemma drop_length_app {A : Type} (l k : list A) n : length l = n -> drop n (l ++ k) = k.
Proof. intros <-. by rewrite drop_app_length. Qed.

Lemma nth_length_app {A : Type} (l : list A) x d n :
  length l = n -> nth n (l ++ [x]) d = x.
Proof. intros <-. by rewrite nth_middle. Qed.

Lemma rewrite_list_cons f n l st :
  rewrite_list f (n :: l) st =
    ((f n st).1 :: (rewrite_list f l (f n st).2).1, (rewrite_list f l (f n st).2).2).
Proof. simpl. destruct (f n st) as [n' st1]. simpl. by destruct (rewrite_list f l st1). Qed.

Lemma rewrite_list_nil f st : rewrite_list f [] st = ([], st).
Proof. reflexivity. Qed.

Lemma option_list_head {A : Type} (o : option A) : option_list o !! 0 = o.
Proof. by destruct o. Qed.

Lemma lookup_here {A : Type} (x : A) l : (x :: l) !! 0 = Some x.
Proof. reflexivity. Qed.

Lemma lookup_next {A : Type} (x : A) l i : (x :: l) !! S i = l !! i.
Proof. reflexivity. Qed.

Ltac rebuild_simpl :=
  rewrite ?rewrite_list_app, ?rewrite_list_cons, ?rewrite_list_option,
    ?rewrite_list_nil;
  cbn [fst snd nth];
  rewrite ?lookup_next, ?lookup_here, ?option_list_head;
  rewrite ?take_length_app, ?drop_length_app, ?nth_length_app
    by apply rewrite_list_length.

Lemma visitor_pushed o st :
  drop (length (attributes o)) (attributes (JSXOpeningElement_visitor o st))
    = pushed o st.
Proof. unfold JSXOpeningElement_visitor. simpl. by rewrite drop_app_length. Qed.

Lemma rewrite_keys_rebuild visit n st :
  rewrite_keys visit n st =
    (rebuild n (self_pushed n st) (rewrite_list visit (kids n) st).1,
     (rewrite_list visit (kids n) st).2).
Proof.
  rewrite kids_unfold.
  destruct n; cbn [rewrite_keys rebuild self_pushed];
    rewrite ?visitor_pushed, ?let_pair; rebuild_simpl; reflexivity.
Qed.

Lemma inject_rebuild F path n :
  inject F path n =
    rebuild n (self_pushed n (mkState F path)) (inject F path <$> kids n).
Proof.
  rewrite kids_unfold.
  destruct n; cbn [inject rebuild self_pushed];
    rewrite ?fmap_app, ?fmap_cons, ?fmap_nil; cbn [nth];
    rewrite ?lookup_next, ?lookup_here;
    rewrite ?take_length_app, ?drop_length_app, ?nth_length_app
      by apply length_fmap;
    try reflexivity;
    match goal with o : option node |- _ => by destruct o end.
Qed.

(** ** The traversal of the plugin tags what the whole run marks

    With distinct identities on the opening tags, the single traversal of the
    plugin, which marks and tags as it goes, produces the tree that the
    injector produces from the final set of marked tags. *)

Lemma plugin_visit_le n st : state_le st (plugin_visit n st).2.
Proof.
  rewrite (plugin_visit_state n (ParentNode n)).
  apply (traverse_le (fun _ => plugin_enter) state_le (fun _ => plugin_enter_le)).
Qed.

Lemma plugin_visit_bound n st :
  topmostElements (plugin_visit n st).2 ⊆ topmostElements st ∪ list_to_set (ids n).
Proof. rewrite (plugin_visit_state n (ParentNode n)). apply plugin_state_bound. Qed.

Lemma rewrite_list_le l st : state_le st (rewrite_list plugin_visit l st).2.
Proof.
  revert st. induction l as [|n l IH]; intros st; [done|].
  rewrite rewrite_list_cons. simpl. etrans; [apply plugin_visit_le | apply IH].
Qed.

Lemma rewrite_list_bound l st :
  topmostElements (rewrite_list plugin_visit l st).2
    ⊆ topmostElements st ∪ list_to_set (l ≫= ids).
Proof.
  revert st. induction l as [|n l IH]; intros st; [simpl; set_solver|].
  rewrite rewrite_list_cons. cbn [snd]. etrans; [apply IH|].
  pose proof (plugin_visit_bound n st). simpl. rewrite list_to_set_app_L. set_solver.
Qed.

Lemma plugin_visit_kids n st :
  plugin_visit n st =
    (rebuild n (self_pushed n (plugin_enter n st))
       (rewrite_list plugin_visit (kids n) (plugin_enter n st)).1,
     (rewrite_list plugin_visit (kids n) (plugin_enter n st)).2).
Proof. by rewrite plugin_visit_unfold, rewrite_keys_rebuild. Qed.

Lemma rewrite_list_inject l :
  Forall tags_as_injector l ->
  forall st F,
    NoDup (l ≫= ids) ->
    agrees F (l ≫= ids) (topmostElements (rewrite_list plugin_visit l st).2) ->
    (rewrite_list plugin_visit l st).1 = inject F (filePath st) <$> l.
Proof.
  induction 1 as [|n l Hn _ IH]; intros st F Hdup [Hsub Hin]; [done|].
  rewrite rewrite_list_cons in *. cbn [fst snd] in *.
  simpl in Hdup, Hin. apply NoDup_app in Hdup as (Hdn & Hdisj & Hdl).
  pose proof (plugin_visit_le n st) as [Hle Hpath].
  pose proof (rewrite_list_le l (plugin_visit n st).2) as [Hle' _].
  pose proof (rewrite_list_bound l (plugin_visit n st).2) as Hb.
  rewrite fmap_cons. f_equal.
  - apply Hn; [done|]. split; [set_solver|].
    intros i Hi HF. specialize (Hin i). specialize (Hdisj i Hi).
    rewrite elem_of_app in Hin. set_solver.
  - rewrite Hpath. apply IH; [done|]. split; [done|].
    intros i Hi HF. apply Hin; [|done]. apply elem_of_app. by right.
Qed.

Lemma pushed_ext o st st' :
  (oid o ∈ topmostElements st <-> oid o ∈ topmostElements st') ->
  filePath st = filePath st' ->
  pushed o st = pushed o st'.
Proof.
  intros Hiff Hpath. unfold pushed. rewrite Hpath.
  destruct (decide (oid o ∈ topmostElements st)) as [Hin|Hin].
  - by rewrite !bool_decide_eq_true_2 by tauto.
  - by rewrite !bool_decide_eq_false_2 by tauto.
Qed.

Lemma plugin_visit_inject n : tags_as_injector n.
Proof.
  induction n as [n IH] using node_subnodes_ind.
  intros st F Hdup [Hsub Hin].
  rewrite plugin_visit_kids in *. cbn [fst snd] in *.
  rewrite inject_rebuild.
  pose proof (plugin_enter_le n st) as [Hle Hpath].
  pose proof (rewrite_list_le (kids n) (plugin_enter n st)) as [Hle' _].
  pose proof (rewrite_list_bound (kids n) (plugin_enter n st)) as Hb.
  rewrite ids_kids in Hdup, Hin. apply NoDup_app in Hdup as (_ & Hdisj & Hdk).
  f_equal.
  - destruct n; try reflexivity. cbn [self_pushed].
    apply pushed_ext; [|by rewrite <- Hpath].
    simpl in *.
    lazymatch goal with
    | |- _ ∈ _ <-> oid ?o ∈ _ => specialize (Hin (oid o)); specialize (Hdisj (oid o))
    end.
    set_solver.
  - rewrite Hpath. apply rewrite_list_inject; [|done|].
    + apply Forall_forall. intros c Hc.
      apply list_elem_of_fmap in Hc as ([p c'] & -> & Hc). by eapply IH.
    + split; [done|]. intros i Hi HF. apply Hin; [|done]. apply elem_of_app. by right.
Qed.

Theorem transform_inject file program :
  NoDup (program_ids program) ->
  (transform file program).1 =
    inject (topmostElements (transform file program).2)
           (filePath (transform file program).2) <$> program.
Proof.
  intros Hdup. rewrite transform_filePath. unfold transform.
  apply rewrite_list_inject; [|done|by split].
  apply Forall_forall. intros n _. apply plugin_visit_inject.
Qed.

(** ** The injector does not change what a traversal marks *)

Lemma pushed_cases o st :
  pushed o st = [] \/ exists path, pushed o st = [filePathAttribute path].
Proof.
  unfold pushed. case_bool_decide; [|by left].
  destruct (hasAttribute o); simpl; eauto.
Qed.

Lemma pushed_ids o st : pushed o st ≫= ids = [].
Proof. by destruct (pushed_cases o st) as [->|[path ->]]. Qed.

Lemma bind_inject_ext (f : node -> node) (l : list node) :
  Forall (fun n => ids (f n) = ids n) l -> (f <$> l) ≫= ids = l ≫= ids.
Proof.
  induction 1 as [|n l Hn _ IH]; [done|].
  by rewrite fmap_cons, !bind_cons, Hn, IH.
Qed.

Lemma from_option_inject_ext (f : node -> node) (o : option node) :
  Forall (fun n => ids (f n) = ids n) (option_list o) ->
  from_option ids [] (f <$> o) = from_option ids [] o.
Proof. destruct o; simpl; [|done]. by intros H%Forall_inv. Qed.

Lemma ids_inject F path n : ids (inject F path n) = ids n.
Proof.
  induction n using node_ind'; cbn [inject ids attributes oid];
    rewrite ?bind_app, ?pushed_ids, ?app_nil_r;
    repeat match goal with
      | H : Forall _ (option_list _) |- _ =>
          rewrite (from_option_inject_ext _ _ H); clear H
      | H : Forall _ _ |- _ => rewrite (bind_inject_ext _ _ H); clear H
      | H : ids (inject _ _ _) = _ |- _ => rewrite H; clear H
      end; reflexivity.
Qed.

Lemma program_ids_inject F path program :
  program_ids (inject F path <$> program) = program_ids program.
Proof.
  unfold program_ids. apply bind_inject_ext, Forall_forall. intros n _. apply ids_inject.
Qed.

Section traverse_inject.
Context {S : Type} (enter : parent -> node -> S -> S) (F : gset nat) (path : string).
Hypothesis enter_inject : forall p p' n s,
  isJSXAttribute p' = isJSXAttribute p ->
  enter p' (inject F path n) s = enter p n s.
Hypothesis enter_attribute : forall p name value s, enter p (JSXAttribute name value) s = s.
Hypothesis enter_string : forall p v s, enter p (StringLiteral v) s = s.

Lemma visit_list_inject p p' l s :
  isJSXAttribute p' = isJSXAttribute p ->
  Forall (same_traversal enter F path) l ->
  visit_list (traverse enter p') (inject F path <$> l) s
    = visit_list (traverse enter p) l s.
Proof.
  intros Hp H. revert s. unfold visit_list.
  induction H as [|n l Hn _ IH]; intros s; simpl; [done|].
  by rewrite (Hn p p' s Hp), IH.
Qed.

Lemma visit_opt_inject p p' o s :
  isJSXAttribute p' = isJSXAttribute p ->
  Forall (same_traversal enter F path) (option_list o) ->
  visit_opt (traverse enter p') (inject F path <$> o) s
    = visit_opt (traverse enter p) o s.
Proof.
  intros Hp H. destruct o as [n|]; simpl; [|done].
  apply Forall_inv in H. by apply H.
Qed.

Lemma visit_list_pushed p o st s :
  visit_list (traverse enter p) (pushed o st) s = s.
Proof.
  destruct (pushed_cases o st) as [->|[x ->]]; [done|].
  unfold visit_list, filePathAttribute. simpl.
  by rewrite enter_attribute, enter_string.
Qed.

Lemma visit_list_app {T : Type} (f : node -> T -> T) l1 l2 s :
  visit_list f (l1 ++ l2) s = visit_list f l2 (visit_list f l1 s).
Proof. unfold visit_list. apply fold_left_app. Qed.

Ltac same_step :=
  match goal with
  | H : Forall (same_traversal enter F path) ?l
    |- context [visit_list (traverse enter ?p') (inject F path <$> ?l) ?s] =>
      match goal with
      | |- context [visit_list (traverse enter ?p) l _] =>
          rewrite (visit_list_inject p p' l s eq_refl H)
      end
  | H : Forall (same_traversal enter F path) (option_list ?o)
    |- context [visit_opt (traverse enter ?p') (inject F path <$> ?o) ?s] =>
      match goal with
      | |- context [visit_opt (traverse enter ?p) o _] =>
          rewrite (visit_opt_inject p p' o s eq_refl H)
      end
  | H : same_traversal enter F path ?n
    |- context [traverse enter ?p' (inject F path ?n) ?s] =>
      match goal with
      | |- context [traverse enter ?p n _] => rewrite (H p p' s eq_refl)
      end
  end.

Lemma traverse_keys_inject_step n :
  Forall (same_traversal enter F path) (kids n) ->
  forall s,
    traverse_keys (traverse enter) (inject F path n) s
      = traverse_keys (traverse enter) n s.
Proof.
  rewrite kids_unfold. intros H s.
  destruct n; cbn [inject traverse_keys attributes];
    rewrite ?visit_list_app, ?visit_list_pushed;
    repeat match goal with
      | H : Forall _ (_ ++ _) |- _ => apply Forall_app in H as [??]
      | H : Forall _ (_ :: _) |- _ => apply Forall_cons in H as [??]
      end;
    repeat same_step; reflexivity.
Qed.

Lemma traverse_inject n : same_traversal enter F path n.
Proof.
  induction n as [n IH] using node_subnodes_ind. intros p p' s Hp.
  rewrite !traverse_unfold, (enter_inject p p' n s Hp).
  apply traverse_keys_inject_step, Forall_forall. intros c Hc.
  apply list_elem_of_fmap in Hc as ([q c'] & -> & Hc). by eapply IH.
Qed.

Lemma traverse_keys_inject n s :
  traverse_keys (traverse enter) (inject F path n) s
    = traverse_keys (traverse enter) n s.
Proof.
  apply traverse_keys_inject_step, Forall_forall. intros c _. apply traverse_inject.
Qed.
End traverse_inject.

Lemma tag_element_inject F path n s : tag_element (inject F path n) s = tag_element n s.
Proof. by destruct n. Qed.

Lemma mark_element_inject F path n s : mark_element (inject F path n) s = mark_element n s.
Proof. by destruct n. Qed.

Lemma extractJSXFromLogicalAnd_inject F path expr :
  extractJSXFromLogicalAnd (inject F path expr)
    = inject F path <$> extractJSXFromLogicalAnd expr.
Proof.
  induction expr using node_ind'; try reflexivity.
  destruct op; simpl; auto.
Qed.

Lemma tag_extracted expr s :
  match extractJSXFromLogicalAnd expr with
  | Some (JSXElement o _) => tag o s
  | _ => s
  end = from_option (fun n => tag_element n s) s (extractJSXFromLogicalAnd expr).
Proof. by destruct (extractJSXFromLogicalAnd expr) as [[]|]. Qed.

Lemma mark_extracted expr s :
  match extractJSXFromLogicalAnd expr with
  | Some (JSXElement o _) => mkScan (add o (state s)) (foundTopmost s)
  | _ => s
  end = from_option (fun n => mark_element n s) s (extractJSXFromLogicalAnd expr).
Proof. by destruct (extractJSXFromLogicalAnd expr) as [[]|]. Qed.

Lemma tagFragmentChild_inject F path child s :
  tagFragmentChild (inject F path child) s = tagFragmentChild child s.
Proof.
  destruct child as [| |expression| | | | | | | | | | | | | | | | | |]; try reflexivity.
  destruct expression as [| | | | | |op l r|t c a| | | | | | | | | | | | |];
    try reflexivity.
  - destruct op; try reflexivity.
    change (inject F path (JSXExpressionContainer (LogicalExpression OpAnd l r)))
      with (JSXExpressionContainer
              (LogicalExpression OpAnd (inject F path l) (inject F path r))).
    cbn [tagFragmentChild].
    rewrite !tag_extracted.
    change (extractJSXFromLogicalAnd
              (LogicalExpression OpAnd (inject F path l) (inject F path r)))
      with (extractJSXFromLogicalAnd (inject F path r)).
    change (extractJSXFromLogicalAnd (LogicalExpression OpAnd l r))
      with (extractJSXFromLogicalAnd r).
    rewrite extractJSXFromLogicalAnd_inject.
    destruct (extractJSXFromLogicalAnd r); simpl; [apply tag_element_inject | done].
  - change (tag_element (inject F path a) (tag_element (inject F path c) s)
            = tag_element a (tag_element c s)).
    by rewrite !tag_element_inject.
Qed.

Lemma tagFragmentChildren_inject F path children s :
  tagFragmentChildren (JSXFragment (inject F path <$> children)) s
    = tagFragmentChildren (JSXFragment children) s.
Proof.
  simpl. revert s. induction children as [|c l IH]; intros s; simpl; [done|].
  by rewrite tagFragmentChild_inject, IH.
Qed.

Lemma JSXExpressionContainer_visitor_inject F path p p' expression s :
  isJSXAttribute p' = isJSXAttribute p ->
  JSXExpressionContainer_visitor p' (inject F path expression) s
    = JSXExpressionContainer_visitor p expression s.
Proof.
  intros Hp. unfold JSXExpressionContainer_visitor. rewrite Hp.
  destruct (isJSXAttribute p); [|done].
  destruct expression as [| | | | | |op l r|t c a| | | | | | | | | | | | |];
    try reflexivity.
  - destruct op; try reflexivity.
    cbn [inject]. rewrite !mark_extracted.
    change (extractJSXFromLogicalAnd
              (LogicalExpression OpAnd (inject F path l) (inject F path r)))
      with (extractJSXFromLogicalAnd (inject F path r)).
    change (extractJSXFromLogicalAnd (LogicalExpression OpAnd l r))
      with (extractJSXFromLogicalAnd r).
    rewrite extractJSXFromLogicalAnd_inject.
    destruct (extractJSXFromLogicalAnd r); simpl; [apply mark_element_inject | done].
  - change (mark_element (inject F path a) (mark_element (inject F path c) s)
            = mark_element a (mark_element c s)).
    by rewrite !mark_element_inject.
Qed.

Lemma scan_enter_inject F path p p' n s :
  isJSXAttribute p' = isJSXAttribute p ->
  scan_enter p' (inject F path n) s = scan_enter p n s.
Proof.
  intros Hp. destruct n; try reflexivity.
  - by apply JSXExpressionContainer_visitor_inject.
  - cbn [inject scan_enter]. unfold ArrowFunctionExpression_visitor.
    destruct (foundTopmost s); [done|].
    destruct n; try reflexivity. apply tagFragmentChildren_inject.
  - cbn [inject scan_enter]. unfold ReturnStatement_visitor.
    destruct (foundTopmost s); [done|].
    destruct argument as [[]|]; try reflexivity. apply tagFragmentChildren_inject.
Qed.

Lemma findTopmostJSX_inject F path n st :
  findTopmostJSX (inject F path n) st = findTopmostJSX n st.
Proof.
  unfold findTopmostJSX, scan_node. f_equal.
  by apply traverse_keys_inject; [apply scan_enter_inject|..].
Qed.

Lemma plugin_enter_inject F path n st :
  plugin_enter (inject F path n) st = plugin_enter n st.
Proof.
  destruct n; try reflexivity.
  - apply (findTopmostJSX_inject F path (FunctionDeclaration id params n)).
  - cbn [inject plugin_enter].
    assert (isFunction (inject F path <$> init) = isFunction init) as ->
      by (by destruct init as [[]|]).
    destruct (isFunction init); [|done].
    apply (findTopmostJSX_inject F path (VariableDeclarator n init)).
Qed.

(** The state a run of the plugin ends in is the same on a tree and on the
    tree the injector made of it. *)
Lemma transform_state_inject F path file program :
  (transform file (inject F path <$> program)).2 = (transform file program).2.
Proof.
  rewrite !transform_state.
  apply (traverse_keys_inject (fun _ => plugin_enter) F path
           (fun p p' n s _ => plugin_enter_inject F path n s)
           (fun _ _ _ _ => eq_refl) (fun _ _ _ => eq_refl) (Program program)).
Qed.

(** ** The path of the state has no part in what a traversal marks *)
Section traverse_commute.
Context {S : Type} (enter : parent -> node -> S -> S) (h : S -> S).
Hypothesis enter_commute : forall p n s, h (enter p n s) = enter p n (h s).

Lemma fold_commute (l : list (parent * node)) (visit : parent -> node -> S -> S) s :
  (forall p c, (p, c) ∈ l -> forall s, h (visit p c s) = visit p c (h s)) ->
  h (fold_left (fun s pc => visit pc.1 pc.2 s) l s)
    = fold_left (fun s pc => visit pc.1 pc.2 s) l (h s).
Proof.
  revert s. induction l as [|[p c] l IH]; intros s H; simpl; [done|].
  rewrite IH by (intros ????; apply H; by right).
  by rewrite (H p c (list_elem_of_here _ _)).
Qed.

Lemma traverse_commute n : forall p s, h (traverse enter p n s) = traverse enter p n (h s).
Proof.
  induction n as [n IH] using node_subnodes_ind. intros p s.
  rewrite !traverse_unfold, !traverse_keys_subnodes, <- enter_commute.
  apply fold_commute. intros q c Hc s'. by eapply IH.
Qed.

Lemma traverse_keys_commute n s :
  h (traverse_keys (traverse enter) n s) = traverse_keys (traverse enter) n (h s).
Proof.
  rewrite !traverse_keys_subnodes. apply fold_commute. intros p c _ s'.
  apply traverse_commute.
Qed.
End traverse_commute.

Lemma tag_element_with_path path n s :
  scan_with_path path (tag_element n s) = tag_element n (scan_with_path path s).
Proof. by destruct n. Qed.

Lemma mark_element_with_path path n s :
  scan_with_path path (mark_element n s) = mark_element n (scan_with_path path s).
Proof. by destruct n. Qed.

Lemma tagFragmentChild_with_path path child s :
  scan_with_path path (tagFragmentChild child s)
    = tagFragmentChild child (scan_with_path path s).
Proof.
  destruct child as [| |expression| | | | | | | | | | | | | | | | | |]; try reflexivity.
  destruct expression as [| | | | | |op l r|t c a| | | | | | | | | | | | |];
    try reflexivity.
  - destruct op; try reflexivity.
    cbn [tagFragmentChild]. rewrite !tag_extracted.
    destruct (extractJSXFromLogicalAnd (LogicalExpression OpAnd l r)); simpl;
      [apply tag_element_with_path | done].
  - change (scan_with_path path (tag_element a (tag_element c s))
            = tag_element a (tag_element c (scan_with_path path s))).
    by rewrite !tag_element_with_path.
Qed.

Lemma tagFragmentChildren_with_path path fragment s :
  scan_with_path path (tagFragmentChildren fragment s)
    = tagFragmentChildren fragment (scan_with_path path s).
Proof.
  destruct fragment; try reflexivity. simpl. revert s.
  induction children as [|c l IH]; intros s; simpl; [done|].
  by rewrite IH, tagFragmentChild_with_path.
Qed.

Lemma scan_enter_with_path path p n s :
  scan_with_path path (scan_enter p n s) = scan_enter p n (scan_with_path path s).
Proof.
  destruct n; try reflexivity; cbn [scan_enter].
  - unfold JSXExpressionContainer_visitor. destruct (isJSXAttribute p); [|done].
    destruct n as [| | | | | |op l r|t c a| | | | | | | | | | | | |]; try reflexivity.
    + destruct op; try reflexivity. rewrite !mark_extracted.
      destruct (extractJSXFromLogicalAnd (LogicalExpression OpAnd l r)); simpl;
        [apply mark_element_with_path | done].
    + change (scan_with_path path (mark_element a (mark_element c s))
              = mark_element a (mark_element c (scan_with_path path s))).
      by rewrite !mark_element_with_path.
  - unfold ArrowFunctionExpression_visitor. simpl.
    destruct (foundTopmost s); [done|].
    destruct n; try reflexivity.
    apply (tagFragmentChildren_with_path path (JSXFragment children)).
  - unfold ReturnStatement_visitor. simpl.
    destruct (foundTopmost s); [done|].
    destruct argument as [[]|]; try reflexivity.
    apply (tagFragmentChildren_with_path path (JSXFragment children)).
Qed.

Lemma findTopmostJSX_with_path path n st :
  with_path path (findTopmostJSX n st) = findTopmostJSX n (with_path path st).
Proof.
  unfold findTopmostJSX, scan_node.
  change (mkScan (with_path path st) false) with (scan_with_path path (mkScan st false)).
  by rewrite <- (traverse_keys_commute scan_enter (scan_with_path path)
                   (scan_enter_with_path path)).
Qed.

Lemma plugin_enter_with_path path n st :
  with_path path (plugin_enter n st) = plugin_enter n (with_path path st).
Proof.
  destruct n; try reflexivity; cbn [plugin_enter].
  - apply findTopmostJSX_with_path.
  - destruct (isFunction init); [apply findTopmostJSX_with_path | done].
Qed.

Lemma Program_enter_topmostElements file : topmostElements (Program_enter file) = ∅.
Proof.
  unfold Program_enter.
  destruct (Program_enter_try_normal file (mkState ∅ "")) as [st' H].
  rewrite H. revert H. unfold Program_enter_try.
  destruct file as [[[o|]]|]; simpl; repeat case_bool_decide; by intros [= <-].
Qed.

(** What a run of the plugin marks does not depend on the path of the file. *)
Lemma transform_marks_path file file' program :
  topmostElements (transform file' program).2
    = topmostElements (transform file program).2.
Proof.
  rewrite !transform_state.
  assert (Program_enter file' = with_path (filePath (Program_enter file')) (Program_enter file))
    as ->.
  { unfold with_path. rewrite Program_enter_topmostElements.
    rewrite <- (Program_enter_topmostElements file'). by destruct (Program_enter file'). }
  by rewrite <- (traverse_keys_commute (fun _ => plugin_enter) (with_path _)
                   (fun _ => plugin_enter_with_path _)).
Qed.

(** ** The injector is idempotent on trees *)

Lemma isFilePathAttribute_inject F path n :
  isFilePathAttribute (inject F path n) = isFilePathAttribute n.
Proof. by destruct n. Qed.

Lemma existsb_inject F path l :
  existsb isFilePathAttribute (inject F path <$> l) = existsb isFilePathAttribute l.
Proof.
  induction l as [|n l IH]; [done|].
  rewrite fmap_cons. cbn [existsb]. by rewrite isFilePathAttribute_inject, IH.
Qed.

Lemma pushed_after_inject F path path' o :
  pushed (mkOpening (oid o) (tagName o)
            ((inject F path <$> attributes o) ++ pushed o (mkState F path)))
         (mkState F path') = [].
Proof.
  destruct (decide (oid o ∈ F)) as [Hin|Hin]; [|by apply pushed_not_marked].
  apply pushed_has. unfold hasAttribute. simpl.
  rewrite existsb_app, existsb_inject.
  destruct (existsb isFilePathAttribute (attributes o)) eqn:E; [done|].
  by rewrite (pushed_new o (mkState F path) Hin E).
Qed.

Lemma inject_pushed F path o st : inject F path <$> pushed o st = pushed o st.
Proof. by destruct (pushed_cases o st) as [->|[x ->]]. Qed.

Lemma fmap_inject_twice (f g : node -> node) (l : list node) :
  Forall (fun n => f (g n) = g n) l -> f <$> (g <$> l) = g <$> l.
Proof.
  induction 1 as [|n l Hn _ IH]; [done|]. by rewrite !fmap_cons, Hn, IH.
Qed.

Lemma option_inject_twice (f g : node -> node) (o : option node) :
  Forall (fun n => f (g n) = g n) (option_list o) -> f <$> (g <$> o) = g <$> o.
Proof. destruct o; simpl; [|done]. by intros ->%Forall_inv. Qed.

Lemma inject_idempotent F path path' n :
  inject F path' (inject F path n) = inject F path n.
Proof.
  induction n using node_ind'; cbn [inject attributes oid tagName];
    rewrite ?fmap_app, ?inject_pushed, ?pushed_after_inject, ?app_nil_r;
    repeat match goal with
      | H : Forall _ (option_list _) |- _ =>
          rewrite (option_inject_twice _ _ _ H); clear H
      | H : Forall _ _ |- _ => rewrite (fmap_inject_twice _ _ _ H); clear H
      | H : inject _ _ (inject _ _ _) = _ |- _ => rewrite H; clear H
      end; reflexivity.
Qed.

(** Running the plugin on the tree it produced changes nothing, whatever the
    path of the second run, and marks the same tags. *)
Theorem transform_idempotent file file' program :
  NoDup (program_ids program) ->
  (transform file' (transform file program).1).1 = (transform file program).1
  /\ topmostElements (transform file' (transform file program).1).2
     = topmostElements (transform file program).2.
Proof.
  intros Hdup.
  rewrite (transform_inject file program Hdup).
  set (F := topmostElements (transform file program).2).
  set (path := filePath (transform file program).2).
  assert (HF : topmostElements (transform file' (inject F path <$> program)).2 = F).
  { by rewrite transform_state_inject, (transform_marks_path file). }
  split; [|done].
  rewrite transform_inject by by rewrite program_ids_inject.
  rewrite HF. apply fmap_inject_twice, Forall_forall. intros n _.
  apply inject_idempotent.
Qed.

(** ** What the injector does to each opening tag of a tree *)

Lemma pushed_openings o st : pushed o st ≫= openings = [].
Proof. by destruct (pushed_cases o st) as [->|[path ->]]. Qed.

Lemma bind_openings_ext (f : node -> node) (g : JSXOpeningElement -> JSXOpeningElement)
    (l : list node) :
  Forall (fun n => openings (f n) = g <$> openings n) l ->
  (f <$> l) ≫= openings = g <$> (l ≫= openings).
Proof.
  induction 1 as [|n l Hn _ IH]; [done|].
  by rewrite fmap_cons, !bind_cons, fmap_app, Hn, IH.
Qed.

Lemma from_option_openings_ext (f : node -> node)
    (g : JSXOpeningElement -> JSXOpeningElement) (o : option node) :
  Forall (fun n => openings (f n) = g <$> openings n) (option_list o) ->
  from_option openings [] (f <$> o) = g <$> from_option openings [] o.
Proof. destruct o; simpl; [|done]. by intros H%Forall_inv. Qed.

Lemma openings_inject F path n :
  openings (inject F path n) = inject_opening F path <$> openings n.
Proof.
  induction n using node_ind'; cbn [inject openings attributes oid];
    rewrite ?bind_app, ?pushed_openings, ?app_nil_r;
    repeat match goal with
      | H : Forall _ (option_list _) |- _ =>
          rewrite (from_option_openings_ext _ _ _ H); clear H
      | H : Forall _ _ |- _ => rewrite (bind_openings_ext _ _ _ H); clear H
      | H : openings (inject _ _ _) = _ |- _ => rewrite H; clear H
      end;
    rewrite ?fmap_cons, ?fmap_app; reflexivity.
Qed.

Lemma program_openings_inject F path program :
  program_openings (inject F path <$> program)
    = inject_opening F path <$> program_openings program.
Proof.
  apply bind_openings_ext, Forall_forall. intros n _. apply openings_inject.
Qed.

Lemma hasAttribute_inject_opening F path o :
  hasAttribute (inject_opening F path o)
    = hasAttribute (JSXOpeningElement_visitor o (mkState F path)).
Proof.
  unfold hasAttribute, inject_opening, JSXOpeningElement_visitor. simpl.
  by rewrite !existsb_app, existsb_inject.
Qed.

Lemma filter_filePath_inject F path l :
  length (filter (fun a => isFilePathAttribute a = true) (inject F path <$> l))
    = length (filter (fun a => isFilePathAttribute a = true) l).
Proof.
  induction l as [|a l IH]; [done|]. rewrite fmap_cons.
  destruct (isFilePathAttribute a) eqn:E.
  - rewrite !filter_cons_True by by rewrite ?isFilePathAttribute_inject.
    simpl. by rewrite IH.
  - rewrite !filter_cons_False by by rewrite ?isFilePathAttribute_inject, E.
    done.
Qed.

Lemma count_filePath_inject_opening F path o :
  count_filePath (inject_opening F path o)
    = count_filePath (JSXOpeningElement_visitor o (mkState F path)).
Proof.
  unfold count_filePath, inject_opening, JSXOpeningElement_visitor. simpl.
  by rewrite !filter_app, !length_app, filter_filePath_inject.
Qed.

(** A tree none of whose opening tags is marked is left as it is. *)
Lemma rebuild_kids n : rebuild n [] (kids n) = n.
Proof.
  rewrite kids_unfold.
  destruct n; cbn [rebuild nth];
    rewrite ?lookup_next, ?lookup_here, ?option_list_head,
      ?take_length_app, ?drop_length_app, ?nth_length_app, ?app_nil_r by done;
    try reflexivity.
  by destruct openingElement.
Qed.

Lemma inject_unmarked F path n :
  (forall i, i ∈ ids n -> i ∉ F) -> inject F path n = n.
Proof.
  induction n as [n IH] using node_subnodes_ind. intros Hout.
  rewrite inject_rebuild.
  assert (self_pushed n (mkState F path) = []) as ->.
  { destruct n; try reflexivity. apply pushed_not_marked, Hout. simpl. by left. }
  rewrite <- (rebuild_kids n) at 3. f_equal.
  rewrite <- (list_fmap_id (kids n)) at 2. apply list_fmap_ext.
  intros k c Hc. apply list_elem_of_lookup_2 in Hc.
  pose proof Hc as Hc'. apply list_elem_of_fmap in Hc' as ([p c'] & -> & Hc').
  eapply IH; [done|]. intros i Hi. apply Hout. rewrite ids_kids.
  apply elem_of_app. right. apply list_elem_of_bind. eauto.
Qed.

(** ** Only opening tags that lie in a component are marked *)

Lemma in_component_child p c n i :
  (p, c) ∈ subnodes n -> in_component c i -> in_component n i.
Proof.
  intros Hc [[Hcomp Hi]|(q & r & Hr & Hcomp & Hi)]; right.
  - exists p, c. split; [by apply inside_child | done].
  - exists q, r. split; [by eapply inside_below | done].
Qed.

Lemma fold_in_component (l : list (parent * node)) st i :
  (forall p c, (p, c) ∈ l -> forall st,
     i ∈ topmostElements (plugin_state p c st) ->
     i ∈ topmostElements st \/ in_component c i) ->
  i ∈ topmostElements (fold_left (fun st pc => plugin_state pc.1 pc.2 st) l st) ->
  i ∈ topmostElements st \/ exists p c, (p, c) ∈ l /\ in_component c i.
Proof.
  revert st. induction l as [|[p c] l IH]; intros st H Hi; simpl in Hi; [by left|].
  destruct (IH _ (fun p' c' Hc' => H p' c' (list_elem_of_further _ _ _ Hc')) Hi)
    as [Hi'|(p' & c' & Hc' & Hin)].
  - destruct (H p c (list_elem_of_here _ _) st Hi') as [?|?]; [by left|].
    right. exists p, c. split; [left | done].
  - right. exists p', c'. split; [by right | done].
Qed.

Lemma plugin_state_in_component n : forall p st i,
  i ∈ topmostElements (plugin_state p n st) ->
  i ∈ topmostElements st \/ in_component n i.
Proof.
  induction n as [n IH] using node_subnodes_ind. intros p st i.
  unfold plugin_state. rewrite traverse_unfold, traverse_keys_subnodes.
  fold plugin_state. intros Hi.
  apply fold_in_component in Hi as [Hi|(q & c & Hc & Hin)].
  - destruct (is_component n) eqn:Hcomp.
    + pose proof (plugin_enter_bound n st) as Hb.
      destruct (decide (i ∈ topmostElements st)); [by left|].
      right. left. split; [done|]. set_solver.
    + left. revert Hi. destruct n; try done. simpl in *. by rewrite Hcomp.
  - right. by eapply in_component_child.
  - intros q c Hc st' Hi'. by eapply IH.
Qed.

Lemma transform_in_component file program i :
  i ∈ topmostElements (transform file program).2 ->
  exists q r, inside (q, r) (Program program) /\ is_component r = true /\ i ∈ ids r.
Proof.
  rewrite transform_state, traverse_keys_subnodes. intros Hi.
  apply fold_in_component in Hi as [Hi|(q & c & Hc & Hin)].
  - rewrite Program_enter_topmostElements in Hi. set_solver.
  - by destruct (in_component_child q c (Program program) i Hc Hin)
      as [[? _]|?].
  - intros q c _ st. apply plugin_state_in_component.
Qed.

(** ** The scan and the run in closed form *)

(** ** A traversal is the fold of its visitor over the nodes it visits *)

Lemma record_visit_app acc p n s :
  acc ++ record_visit p n s = record_visit p n (acc ++ s).
Proof. unfold record_visit. by rewrite app_assoc. Qed.

Lemma traverse_record p n acc : traverse record_visit p n acc = acc ++ preorder p n.
Proof.
  unfold preorder.
  rewrite (traverse_commute record_visit (app acc) (record_visit_app acc) n p []).
  by rewrite app_nil_r.
Qed.

Lemma traverse_keys_record n acc :
  traverse_keys (traverse record_visit) n acc = acc ++ descendants n.
Proof.
  unfold descendants.
  rewrite (traverse_keys_commute record_visit (app acc) (record_visit_app acc) n []).
  by rewrite app_nil_r.
Qed.

Lemma preorder_unfold p n : preorder p n = (p, n) :: descendants n.
Proof.
  unfold preorder. rewrite traverse_unfold. unfold record_visit at 2. simpl.
  by rewrite traverse_keys_record.
Qed.

Lemma fold_record (l : list (parent * node)) acc :
  fold_left (fun s pc => traverse record_visit pc.1 pc.2 s) l acc
    = acc ++ (l ≫= fun pc => preorder pc.1 pc.2).
Proof.
  revert acc. induction l as [|[p c] l IH]; intros acc; simpl.
  - by rewrite app_nil_r.
  - by rewrite IH, traverse_record, app_assoc.
Qed.

Lemma descendants_unfold n :
  descendants n = subnodes n ≫= fun pc => preorder pc.1 pc.2.
Proof. unfold descendants. by rewrite traverse_keys_subnodes, fold_record. Qed.

Lemma fold_left_bind {A B C : Type} (f : A -> B -> A) (g : C -> list B) l a :
  fold_left f (l ≫= g) a = fold_left (fun a c => fold_left f (g c) a) l a.
Proof.
  revert a. induction l as [|c l IH]; intros a; simpl; [done|].
  by rewrite fold_left_app, IH.
Qed.

(** A traversal is the fold of its visitor over the nodes it visits. *)
Lemma traverse_fold {S : Type} (enter : parent -> node -> S -> S) n : forall p s,
  traverse enter p n s = fold_left (fun s pd => enter pd.1 pd.2 s) (preorder p n) s.
Proof.
  induction n as [n IH] using node_subnodes_ind. intros p s.
  rewrite traverse_unfold, traverse_keys_subnodes, preorder_unfold, descendants_unfold.
  simpl. rewrite fold_left_bind. generalize (enter p n s). intros s'.
  revert s'. induction (subnodes n) as [|[q c] l IHl]; intros s'; simpl; [done|].
  rewrite (IH q c) by left. apply IHl. intros q' c' Hc'. apply (IH q' c'). by right.
Qed.

Lemma traverse_keys_fold {S : Type} (enter : parent -> node -> S -> S) n s :
  traverse_keys (traverse enter) n s
    = fold_left (fun s pd => enter pd.1 pd.2 s) (descendants n) s.
Proof.
  rewrite traverse_keys_subnodes, descendants_unfold, fold_left_bind.
  revert s. induction (subnodes n) as [|[q c] l IHl]; intros s; simpl; [done|].
  by rewrite traverse_fold, IHl.
Qed.

(** The nodes [path.traverse] visits are the proper descendants. *)
Lemma descendants_inside pd n : pd ∈ descendants n <-> inside pd n.
Proof.
  split.
  - revert pd. induction n as [n IH] using node_subnodes_ind. intros pd.
    rewrite descendants_unfold. intros ([q c] & Hpd & Hc)%list_elem_of_bind.
    simpl in Hpd. rewrite preorder_unfold in Hpd.
    apply elem_of_cons in Hpd as [->|Hpd]; [by apply inside_child|].
    eapply inside_below; [exact Hc|]. by eapply IH.
  - induction 1 as [n Hin | n p c Hin _ IH]; rewrite descendants_unfold;
      apply list_elem_of_bind.
    + exists pd. split; [|done]. rewrite preorder_unfold. destruct pd. by left.
    + exists (p, c). split; [|done]. simpl. rewrite preorder_unfold. by right.
Qed.

(** ** One step of the nested traversal *)

Lemma nonempty_app (l1 l2 : list nat) :
  bool_decide (l1 ++ l2 ≠ []) = bool_decide (l1 ≠ []) || bool_decide (l2 ≠ []).
Proof.
  destruct l1 as [|i l1]; [done|].
  rewrite (bool_decide_eq_true_2 ((i :: l1) ++ l2 ≠ [])) by done.
  by rewrite (bool_decide_eq_true_2 (i :: l1 ≠ [])).
Qed.

Lemma tag_element_found n s :
  foundTopmost (tag_element n s) = foundTopmost s || bool_decide (element_id n ≠ []).
Proof. destruct n; simpl; rewrite ?orb_true_r, ?orb_false_r; done. Qed.

Lemma tagFragmentChild_found child s :
  foundTopmost (tagFragmentChild child s)
    = foundTopmost s || bool_decide (qualifying child ≠ []).
Proof.
  destruct child as [| |expression| | | | | | | | | | | | | | | | | |];
    simpl; rewrite ?orb_true_r, ?orb_false_r; try done.
  destruct expression as [| | | | | |op l r|t c a| | | | | | | | | | | | |];
    simpl; rewrite ?orb_true_r, ?orb_false_r; try done.
  - destruct op; simpl; rewrite ?orb_false_r; try done.
    rewrite extractJSXFromLogicalAnd_rightmost.
    destruct (rightmost_operand r); simpl; rewrite ?orb_true_r, ?orb_false_r; done.
  - change (foundTopmost (tag_element a (tag_element c s))
            = foundTopmost s || bool_decide (element_id c ++ element_id a ≠ [])).
    by rewrite !tag_element_found, nonempty_app, orb_assoc.
Qed.

Lemma tagFragmentChildren_found children s :
  foundTopmost (tagFragmentChildren (JSXFragment children) s)
    = foundTopmost s || bool_decide (children ≫= qualifying ≠ []).
Proof.
  unfold tagFragmentChildren. revert s. induction children as [|c l IH]; intros s.
  - simpl. by rewrite orb_false_r.
  - cbn [fold_left].
    by rewrite IH, tagFragmentChild_found, <- orb_assoc, bind_cons, nonempty_app.
Qed.

Lemma scan_enter_found p n s :
  foundTopmost (scan_enter p n s)
    = foundTopmost s || bool_decide (return_targets n ≠ []).
Proof.
  destruct n; simpl; rewrite ?orb_false_r; try done.
  - apply JSXExpressionContainer_visitor_foundTopmost.
  - unfold ArrowFunctionExpression_visitor. destruct (foundTopmost s) eqn:E; [done|].
    destruct n; try (simpl; done).
    by rewrite (tagFragmentChildren_found children s), E.
  - unfold ReturnStatement_visitor. destruct (foundTopmost s) eqn:E; [done|].
    destruct argument as [[]|]; try (simpl; done).
    by rewrite (tagFragmentChildren_found children s), E.
Qed.

Lemma scan_enter_marks p n s :
  topmostElements (state (scan_enter p n s))
    = topmostElements (state s) ∪ list_to_set (slot_targets p n)
      ∪ (if foundTopmost s then ∅ else list_to_set (return_targets n)).
Proof.
  destruct n; simpl; try (destruct (foundTopmost s); set_solver).
  - destruct (isJSXAttribute p) eqn:Hp.
    + rewrite JSXExpressionContainer_visitor_marks by done.
      destruct (foundTopmost s); set_solver.
    + rewrite JSXExpressionContainer_visitor_not_attribute by done.
      destruct (foundTopmost s); set_solver.
  - rewrite ArrowFunctionExpression_visitor_marks.
    destruct (foundTopmost s); [set_solver|]. destruct n; simpl; set_solver.
  - rewrite ReturnStatement_visitor_marks.
    destruct (foundTopmost s); [set_solver|].
    destruct argument as [[]|]; simpl; set_solver.
Qed.

Lemma fold_scan_enter (l : list (parent * node)) : forall s,
  let s' := fold_left (fun s pd => scan_enter pd.1 pd.2 s) l s in
  topmostElements (state s')
    = topmostElements (state s) ∪ list_to_set (all_slots l)
      ∪ (if foundTopmost s then ∅ else list_to_set (first_return l))
  /\ foundTopmost s' = foundTopmost s || bool_decide (first_return l ≠ []).
Proof.
  induction l as [|[p n] l IH]; intros s.
  - simpl. split; [destruct (foundTopmost s); set_solver | by rewrite orb_false_r].
  - cbn [fold_left fst snd first_return]. cbv zeta.
    destruct (IH (scan_enter p n s)) as [IHm IHf]. cbv zeta in IHm, IHf.
    rewrite IHm, IHf, scan_enter_marks, scan_enter_found.
    unfold all_slots. rewrite bind_cons, list_to_set_app_L. cbn [fst snd].
    destruct (return_targets n) as [|i t] eqn:E.
    + rewrite orb_false_r. split; [|done]. destruct (foundTopmost s); set_solver.
    + rewrite (bool_decide_eq_true_2 (i :: t ≠ [])) by done.
      rewrite orb_true_r. cbn [orb]. split; [|by destruct (foundTopmost s)].
      destruct (foundTopmost s); set_solver.
Qed.

(** ** What a scan and a run add to the set *)

Lemma findTopmostJSX_marks r st :
  topmostElements (findTopmostJSX r st)
    = topmostElements st ∪ list_to_set (component_targets r).
Proof.
  unfold findTopmostJSX, scan_node, component_targets.
  rewrite traverse_keys_fold, list_to_set_app_L.
  destruct (fold_scan_enter (descendants r) (mkScan st false)) as [-> _].
  simpl. set_solver.
Qed.

Lemma scan_node_found p n s :
  foundTopmost s = true ->
  topmostElements (state (scan_node p n s))
    = topmostElements (state s) ∪ list_to_set (all_slots (preorder p n))
  /\ foundTopmost (scan_node p n s) = true.
Proof.
  intros Hs. unfold scan_node. rewrite traverse_fold.
  destruct (fold_scan_enter (preorder p n) s) as [Hm Hf]. cbv zeta in Hm, Hf.
  rewrite Hm, Hf, Hs. split; [set_solver | done].
Qed.

Lemma all_slots_elem i l :
  i ∈ all_slots l <->
  exists p expression,
    (p, JSXExpressionContainer expression) ∈ l
    /\ isJSXAttribute p = true /\ i ∈ resolved expression.
Proof.
  unfold all_slots. rewrite list_elem_of_bind. split.
  - intros ([p n] & Hi & Hl). simpl in Hi.
    destruct n; simpl in Hi; try set_solver.
    destruct (isJSXAttribute p) eqn:E; [|set_solver]. eauto.
  - intros (p & e & Hl & Hp & Hi). exists (p, JSXExpressionContainer e).
    split; [|done]. simpl. by rewrite Hp.
Qed.

Lemma first_return_at l1 p site l2 :
  Forall (fun pd => return_targets pd.2 = []) l1 ->
  return_targets site <> [] ->
  first_return (l1 ++ (p, site) :: l2) = return_targets site.
Proof.
  intros Hl1 Hne. induction Hl1 as [|[q n] l1 Hq _ IH]; simpl.
  - by destruct (return_targets site).
  - simpl in Hq. by rewrite Hq.
Qed.

Lemma plugin_enter_marks n st :
  topmostElements (plugin_enter n st)
    = topmostElements st
      ∪ list_to_set (if is_component n then component_targets n else []).
Proof.
  destruct (is_component n) eqn:E.
  - rewrite plugin_enter_component by done. apply findTopmostJSX_marks.
  - destruct n; try (simpl; set_solver). simpl in *. rewrite E. set_solver.
Qed.

Lemma fold_plugin_enter (l : list (parent * node)) : forall st,
  topmostElements (fold_left (fun st pd => plugin_enter pd.2 st) l st)
    = topmostElements st
      ∪ list_to_set
          (l ≫= fun pd => if is_component pd.2 then component_targets pd.2 else []).
Proof.
  induction l as [|[p n] l IH]; intros st.
  - simpl. set_solver.
  - cbn [fold_left snd]. rewrite IH, plugin_enter_marks, bind_cons, list_to_set_app_L.
    cbn [snd]. set_solver.
Qed.

Lemma transform_marks file program :
  topmostElements (transform file program).2 = list_to_set (marked_ids program).
Proof.
  rewrite transform_state. unfold plugin_state.
  rewrite (traverse_keys_fold (fun _ => plugin_enter)).
  cbn [snd]. rewrite fold_plugin_enter, Program_enter_topmostElements.
  unfold marked_ids. set_solver.
Qed.

Lemma marked_ids_elem i program :
  i ∈ marked_ids program <->
  exists q r, inside (q, r) (Program program) /\ is_component r = true
              /\ i ∈ component_targets r.
Proof.
  unfold marked_ids. rewrite list_elem_of_bind. split.
  - intros ([q r] & Hi & Hl). simpl in Hi. apply descendants_inside in Hl.
    destruct (is_component r) eqn:E; [eauto | set_solver].
  - intros (q & r & Hin & Hc & Hi). exists (q, r). cbn [snd]. rewrite Hc.
    split; [done|]. by apply descendants_inside.
Qed.

Lemma marked_ids_bind program :
  marked_ids program =
    program ≫= fun n =>
      (if is_component n then component_targets n else [])
      ++ (descendants n ≫=
            fun pd => if is_component pd.2 then component_targets pd.2 else []).
Proof.
  unfold marked_ids. rewrite descendants_unfold. unfold Program. cbn [subnodes].
  generalize (ParentNode (OtherNode "Program" program)). intros p.
  induction program as [|n l IH]; [done|].
  rewrite fmap_cons, !bind_cons, bind_app, IH. cbn [fst snd].
  by rewrite preorder_unfold, bind_cons.
Qed.

Lemma marked_ids_app p1 p2 :
  marked_ids (p1 ++ p2) = marked_ids p1 ++ marked_ids p2.
Proof. by rewrite !marked_ids_bind, bind_app. Qed.

(** ** Trees on which nothing is marked, and sets that agree on a tree *)

Lemma state_eq (st st' : PluginPass) :
  topmostElements st = topmostElements st' -> filePath st = filePath st' -> st = st'.
Proof. destruct st, st'. simpl. by intros -> ->. Qed.

Lemma findTopmostJSX_closed r st :
  findTopmostJSX r st
    = mkState (topmostElements st ∪ list_to_set (component_targets r)) (filePath st).
Proof.
  apply state_eq; simpl; [apply findTopmostJSX_marks|].
  symmetry. apply findTopmostJSX_le.
Qed.

Lemma rewrite_list_unmarked l :
  (forall c, c ∈ l -> forall st,
     (forall i, i ∈ ids c -> i ∉ topmostElements (plugin_visit c st).2) ->
     (plugin_visit c st).1 = c) ->
  forall st,
    (forall i, i ∈ l ≫= ids -> i ∉ topmostElements (rewrite_list plugin_visit l st).2) ->
    (rewrite_list plugin_visit l st).1 = l.
Proof.
  induction l as [|n l IH]; intros H st Hout; [done|].
  rewrite rewrite_list_cons in *. cbn [fst snd] in *. f_equal.
  - apply H; [left|]. intros i Hi Hin.
    apply (Hout i); [rewrite bind_cons; apply elem_of_app; by left|].
    by apply (rewrite_list_le l (plugin_visit n st).2).
  - apply IH.
    + intros c Hc. apply H. by right.
    + intros i Hi. apply Hout. rewrite bind_cons. apply elem_of_app. by right.
Qed.

Lemma plugin_visit_unmarked n : forall st,
  (forall i, i ∈ ids n -> i ∉ topmostElements (plugin_visit n st).2) ->
  (plugin_visit n st).1 = n.
Proof.
  induction n as [n IH] using node_subnodes_ind. intros st.
  rewrite plugin_visit_unfold, rewrite_keys_rebuild. cbn [fst snd]. intros Hout.
  assert (self_pushed n (plugin_enter n st) = []) as ->.
  { destruct n; try reflexivity. apply pushed_not_marked. intros Hin.
    apply (Hout (oid openingElement)); [simpl; by left|].
    by apply (rewrite_list_le _ _). }
  etrans; [|apply rebuild_kids]. f_equal.
  apply rewrite_list_unmarked.
  - intros c Hc. apply list_elem_of_fmap in Hc as ([p c'] & -> & Hc). by eapply IH.
  - intros i Hi. apply Hout. by apply kids_ids.
Qed.

Lemma transform_unmarked file program :
  (forall i, i ∈ program_ids program -> i ∉ topmostElements (transform file program).2) ->
  (transform file program).1 = program.
Proof.
  intros Hout. unfold transform. apply rewrite_list_unmarked; [|done].
  intros c _. apply plugin_visit_unmarked.
Qed.

Lemma isFilePathAttribute_spec attr :
  isFilePathAttribute attr = true <->
  exists value, attr = JSXAttribute (JSXIdentifier "__file-path") value.
Proof.
  split.
  - destruct attr as [| | | |[name|]| | | | | | | | | | | | | | | |]; simpl; try done.
    intros H. apply bool_decide_eq_true in H as ->. eauto.
  - intros [value ->]. done.
Qed.

Lemma scan_eq (s s' : Scan) :
  state s = state s' -> foundTopmost s = foundTopmost s' -> s = s'.
Proof. destruct s, s'. simpl. by intros -> ->. Qed.

Lemma inject_ext F F' path n :
  (forall i, i ∈ ids n -> i ∈ F <-> i ∈ F') -> inject F path n = inject F' path n.
Proof.
  induction n as [n IH] using node_subnodes_ind. intros Hag.
  rewrite !inject_rebuild. f_equal.
  - destruct n; try reflexivity. simpl. unfold pushed. simpl.
    assert (H : oid openingElement ∈ F <-> oid openingElement ∈ F')
      by (apply Hag; simpl; by left).
    repeat case_bool_decide; tauto.
  - apply list_fmap_ext. intros k c Hc. apply list_elem_of_lookup_2 in Hc.
    pose proof Hc as Hc'. apply list_elem_of_fmap in Hc' as ([p c'] & -> & Hc').
    eapply IH; [done|]. intros i Hi. apply Hag. apply kids_ids.
    apply list_elem_of_bind. eauto.
Qed.

Lemma component_targets_ids r : component_targets r ⊆ ids r.
Proof.
  intros i Hi. pose proof (findTopmostJSX_bound r (mkState ∅ "")) as Hb.
  rewrite findTopmostJSX_marks in Hb. simpl in Hb. set_solver.
Qed.

Lemma marked_ids_ids program : marked_ids program ⊆ program_ids program.
Proof.
  intros i Hi. apply marked_ids_elem in Hi as (q & r & Hin & Hc & Hi).
  destruct (transform_in_component None program i) as (q' & r' & Hin' & _ & Hi').
  { rewrite transform_marks. apply elem_of_list_to_set. apply marked_ids_elem. eauto. }
  clear Hi Hin Hc q r.
  assert (H : forall n pd, inside pd n -> ids pd.2 ⊆ ids n).
  { intros n pd Hpd. induction Hpd as [n Hc | n p c Hc _ IH].
    - intros j Hj. apply kids_ids. apply list_elem_of_bind. exists pd.2.
      split; [done|]. unfold kids. apply list_elem_of_fmap. eauto.
    - intros j Hj. apply kids_ids. apply list_elem_of_bind. exists c.
      split; [by apply IH|]. unfold kids. apply list_elem_of_fmap. by exists (p, c). }
  by apply (H _ _ Hin') in Hi'.
Qed.

(** Tactics that build the path from a node down to one of its descendants. *)
Ltac descend c := eapply (inside_below _ _ _ c); [simpl; repeat constructor|].
Ltac arrive := apply inside_child; simpl; repeat constructor.

(** * The return-site resolver *)

(** C1 (the code departs from the claim).  The claim: in a component with
    several return statements that each return a single element, every one of
    those elements is marked and receives the attribute.  The code: the
    [ReturnStatement] visitor starts with [if (foundTopmost) return;], so once
    one return statement has marked its element the later ones are skipped.
    On the component of the changelog entry, with a loading branch and a main
    branch, only the first [<div>] is marked and tagged; the second one is
    left as it was. *)
Theorem later_return_statement_is_skipped :
  (transform Examples.file Examples.two_returns).1 =
    [FunctionDeclaration "Index" []
       (BlockStatement
          [IfStatement (Identifier "loading")
             (BlockStatement
                [ReturnStatement
                   (Some (Examples.el 1 "div" [Examples.tagged] [JSXText "Loading"]))])
             None;
           ReturnStatement (Some (Examples.el 2 "div" [] [JSXText "Main content"]))])]
  /\ topmostElements (transform Examples.file Examples.two_returns).2 = {[1]}
  /\ 2 ∉ topmostElements (transform Examples.file Examples.two_returns).2
  /\ (forall argument st,
        ReturnStatement_visitor argument (mkScan st true) = mkScan st true).
Proof.
  split; [by vm_compute|]. split; [by vm_compute|].
  split; [by apply not_elem_of_by_compute|]. done.
Qed.

(** C2 (the code departs from the claim).  The claim: a return statement that
    returns a fragment does not count as yielding a single node, and later
    return sites of the component are still classified and marked.  The code:
    [tagFragmentChildren] sets [foundTopmost] whenever it marks a child, and
    the [ReturnStatement] visitor skips every later return statement once the
    flag is set.  In a component that returns [<><Header /></>] in a branch
    and [<div>Main</div>] after it, [<Header>] is tagged and the [<div>] is
    not. *)
Theorem fragment_return_suppresses_later_return :
  (transform Examples.file Examples.fragment_then_element).1 =
    [FunctionDeclaration "Page" []
       (BlockStatement
          [IfStatement (Identifier "compact")
             (BlockStatement
                [ReturnStatement
                   (Some (JSXFragment [Examples.el 1 "Header" [Examples.tagged] []]))])
             None;
           ReturnStatement (Some (Examples.el 2 "div" [] [JSXText "Main"]))])]
  /\ topmostElements (transform Examples.file Examples.fragment_then_element).2 = {[1]}
  /\ 2 ∉ topmostElements (transform Examples.file Examples.fragment_then_element).2
  /\ (forall st,
        foundTopmost
          (ReturnStatement_visitor
             (Some (JSXFragment [Examples.el 1 "Header" [] []])) (mkScan st false))
        = true).
Proof.
  split; [by vm_compute|]. split; [by vm_compute|].
  split; [by apply not_elem_of_by_compute|]. done.
Qed.

(** C3 (the code departs from the claim).  The claim: when the value a
    component returns is a ternary whose branches are elements, both branches
    are marked and tagged.  The code: the [ReturnStatement] and
    [ArrowFunctionExpression] visitors only look for an element or a fragment,
    so a ternary at a return site marks nothing, in an arrow body as in a
    block; the ternary is classified only inside a fragment child or an
    attribute value. *)
Theorem ternary_return_value_is_not_tagged :
  transform Examples.file Examples.ternary_arrow =
    (Examples.ternary_arrow, mkState ∅ "src/pages/Index.tsx")
  /\ transform Examples.file Examples.ternary_return =
    (Examples.ternary_return, mkState ∅ "src/pages/Index.tsx")
  /\ (forall test consequent alternate s,
        ReturnStatement_visitor
          (Some (ConditionalExpression test consequent alternate)) s = s
        /\ ArrowFunctionExpression_visitor
             (ConditionalExpression test consequent alternate) s = s)
  /\ (forall test o1 c1 o2 c2 s,
        topmostElements
          (state (tagFragmentChild
                    (JSXExpressionContainer
                       (ConditionalExpression test (JSXElement o1 c1) (JSXElement o2 c2)))
                    s))
        = {[oid o1; oid o2]} ∪ topmostElements (state s)).
Proof.
  split; [by vm_compute|]. split; [by vm_compute|]. split.
  - intros. unfold ReturnStatement_visitor, ArrowFunctionExpression_visitor.
    by destruct (foundTopmost s).
  - intros. simpl. set_solver.
Qed.

(** C9.  A return site whose expression is neither an element nor a fragment
    (a plain value, [null], a string, or no expression at all) leaves the
    state of the scan as it is: no opening tag is marked and the flag is not
    set.  The visitors are total functions: there is no error to raise. *)
Theorem non_markup_return_ignored :
  (forall argument s,
     (forall o children, argument ≠ Some (JSXElement o children)) ->
     (forall children, argument ≠ Some (JSXFragment children)) ->
     ReturnStatement_visitor argument s = s)
  /\ (forall body s,
     (forall o children, body ≠ JSXElement o children) ->
     (forall children, body ≠ JSXFragment children) ->
     ArrowFunctionExpression_visitor body s = s).
Proof.
  split.
  - intros argument s He Hf. unfold ReturnStatement_visitor.
    destruct (foundTopmost s); [done|].
    destruct argument as [[]|]; try done; exfalso; [by eapply He | by eapply Hf].
  - intros body s He Hf. unfold ArrowFunctionExpression_visitor.
    destruct (foundTopmost s); [done|].
    destruct body; try done; exfalso; [by eapply He | by eapply Hf].
Qed.

Lemma non_markup_return_ignored_witness :
  let s := mkScan (mkState ∅ "src/pages/Index.tsx") false in
  ReturnStatement_visitor (Some NullLiteral) s = s
  /\ ReturnStatement_visitor (Some (StringLiteral "plain")) s = s
  /\ ReturnStatement_visitor None s = s
  /\ ArrowFunctionExpression_visitor NullLiteral s = s.
Proof.
  intros s. destruct non_markup_return_ignored as [Hret Harrow].
  repeat split; (apply Hret || apply Harrow); intros; discriminate.
Defined.

(** * Fragment-branch tagging *)

Lemma rightmost_operand_and_chain conditions last :
  rightmost_operand (and_chain conditions last) = rightmost_operand last.
Proof. induction conditions; simpl; auto. Qed.

(** C6.  [extractJSXFromLogicalAnd] follows the right-hand operands of a chain
    of [&&], whatever its depth, down to the first operand that is not a [&&]
    expression, and returns that operand when it is an element and nothing
    otherwise.  A fragment child [{l && r}] marks the opening tag of the
    element the chain resolves to, and marks nothing when the chain ends in
    anything else.  [a && b && c && <Btn />] resolves to [<Btn />], as the
    parser nests it and nested to the right; [a && b] yields no tag. *)
Theorem logical_and_unwrapping :
  (forall expr,
     extractJSXFromLogicalAnd expr =
       match rightmost_operand expr with
       | JSXElement o children => Some (JSXElement o children)
       | _ => None
       end)
  /\ (forall conditions o children,
        extractJSXFromLogicalAnd (and_chain conditions (JSXElement o children))
        = Some (JSXElement o children))
  /\ (forall l r s,
        tagFragmentChild (JSXExpressionContainer (LogicalExpression OpAnd l r)) s =
          match rightmost_operand r with
          | JSXElement o _ => tag o s
          | _ => s
          end)
  /\ extractJSXFromLogicalAnd Examples.nested_conjunction = Some (Examples.el 7 "Btn" [] [])
  /\ extractJSXFromLogicalAnd Examples.nested_conjunction_right
     = Some (Examples.el 7 "Btn" [] [])
  /\ (forall s,
        topmostElements
          (state (tagFragmentChild (JSXExpressionContainer Examples.nested_conjunction) s))
        = {[7]} ∪ topmostElements (state s))
  /\ extractJSXFromLogicalAnd Examples.plain_conjunction = None
  /\ (forall s,
        tagFragmentChild (JSXExpressionContainer Examples.plain_conjunction) s = s).
Proof.
  split; [apply extractJSXFromLogicalAnd_rightmost|]. split.
  { intros. by rewrite extractJSXFromLogicalAnd_rightmost, rightmost_operand_and_chain. }
  split.
  { intros. simpl. rewrite extractJSXFromLogicalAnd_rightmost.
    by destruct (rightmost_operand r). }
  repeat split; done.
Qed.

(** C5 fails as worded on a child that is tagged already.  The
    [JSXOpeningElement] visitor pushes only [if (!hasAttribute)]: a marked
    tag that carries a [__file-path] attribute keeps it, with the value it
    has.  In [const Layout = () => (<><Header __file-path=... /><Main /></>)]
    both children are marked; [<Header>] keeps its own value and [<Main>]
    receives the path of the file, so the two tags do not carry the attribute
    with one and the same value. *)
Lemma pretagged_fragment_child_keeps_its_value :
  ~ fragment_children_tagged_alike Examples.file Usage.pretagged_layout.
Proof.
  intros [value H].
  assert (Hin : inside (ParentNode (VariableDeclaration [Usage.pretagged_declarator]),
                        Usage.pretagged_declarator)
                       (Program Usage.pretagged_layout)).
  { descend (VariableDeclaration [Usage.pretagged_declarator]). arrive. }
  assert (Hsite : inside (ParentNode Usage.pretagged_declarator, Usage.pretagged_arrow)
                         Usage.pretagged_declarator) by arrive.
  assert (Hfrag : returns_fragment Usage.pretagged_arrow Usage.pretagged_children)
    by (right; by exists []).
  assert (Hout : program_openings (transform Examples.file Usage.pretagged_layout).1
                 = [Usage.pretagged_header; mkOpening 2 "Main" [Examples.tagged]])
    by by vm_compute.
  rewrite Hout in H.
  destruct (H _ _ _ _ _ (JSXElement Usage.pretagged_header []) 1
              Hin eq_refl Hsite Hfrag) as [_ H1];
    [unfold Usage.pretagged_children; repeat constructor | simpl; repeat constructor |].
  destruct (H _ _ _ _ _ (Examples.el 2 "Main" [] []) 2
              Hin eq_refl Hsite Hfrag) as [_ H2];
    [unfold Usage.pretagged_children; repeat constructor | simpl; repeat constructor |].
  specialize (H1 Usage.pretagged_header). specialize (H2 (mkOpening 2 "Main" [Examples.tagged])).
  simpl in H1, H2.
  assert (E1 : filePathAttribute value = filePathAttribute "src/legacy/Header.tsx")
    by (apply list_elem_of_singleton, H1; [repeat constructor | done]).
  assert (E2 : filePathAttribute value = Examples.tagged)
    by (apply list_elem_of_singleton, H2; [repeat constructor | done]).
  rewrite E1 in E2. discriminate E2.
Qed.

(** C5, amended.  [tagFragmentChildren] marks every qualifying top-level child
    of the fragment, not only the first: the set after the call is the set
    before it together with the opening tags of every direct element child
    and of every element that the expression of a [{...}] child resolves to
    (a direct element, the end of a chain of [&&], either branch of a
    ternary).  A return statement or an arrow body that returns a fragment,
    visited while the flag is not set, does exactly this.  So in a file, for
    every component, wherever it lies, and every return site of it that
    returns a fragment and that the traversal of the component reaches before
    any return site has yielded a tag, every qualifying child of the fragment
    is in the set the run ends with.  In the tree the run produces, the
    identities of the opening tags being distinct, every opening tag of that
    set carries a [__file-path] attribute; the attribute appended to a tag
    that had none holds the path of the file (or [unknown]), the same for
    every tag, and a tag that had one keeps its attributes, nothing being
    appended.  For a fragment with three element children, all three opening
    tags end with the same attribute. *)
Theorem fragment_children_all_tagged :
  (forall children s,
     topmostElements (state (tagFragmentChildren (JSXFragment children) s)) =
       list_to_set (children ≫= qualifying) ∪ topmostElements (state s)
     /\ filePath (state (tagFragmentChildren (JSXFragment children) s))
        = filePath (state s))
  /\ (forall children st,
        ReturnStatement_visitor (Some (JSXFragment children)) (mkScan st false)
          = tagFragmentChildren (JSXFragment children) (mkScan st false)
        /\ ArrowFunctionExpression_visitor (JSXFragment children) (mkScan st false)
          = tagFragmentChildren (JSXFragment children) (mkScan st false))
  /\ (forall file program q r l1 p site l2 children child i,
        inside (q, r) (Program program) -> is_component r = true ->
        descendants r = l1 ++ (p, site) :: l2 ->
        Forall (fun pd => return_targets pd.2 = []) l1 ->
        returns_fragment site children ->
        child ∈ children -> i ∈ qualifying child ->
        i ∈ topmostElements (transform file program).2)
  /\ (forall file program,
        NoDup (program_ids program) ->
        let F := topmostElements (transform file program).2 in
        let path := filePath (Program_enter file) in
        program_openings (transform file program).1
          = inject_opening F path <$> program_openings program
        /\ forall o,
             oid o ∈ F ->
             hasAttribute (inject_opening F path o) = true
             /\ (hasAttribute o = false ->
                 attributes (inject_opening F path o) =
                   (inject F path <$> attributes o)
                     ++ [filePathAttribute (JSString.or_else path "unknown")])
             /\ (hasAttribute o = true ->
                 attributes (inject_opening F path o) = inject F path <$> attributes o))
  /\ (forall o st,
        oid o ∈ topmostElements st -> hasAttribute o = false ->
        attributes (JSXOpeningElement_visitor o st) =
          attributes o ++ [filePathAttribute (JSString.or_else (filePath st) "unknown")])
  /\ (forall o st,
        hasAttribute o = true -> JSXOpeningElement_visitor o st = o)
  /\ (transform Examples.file Examples.layout).1 = Examples.layout_tagged.
Proof.
  split.
  { intros. split; [apply tagFragmentChildren_marks | apply tagFragmentChildren_filePath]. }
  split; [done|]. split; [|split; [|split; [|split; [|by vm_compute]]]].
  - intros file program q r l1 p site l2 children child i
      Hin Hcomp Hdesc Hl1 Hfrag Hchild Hi.
    assert (Hsite : i ∈ return_targets site).
    { destruct Hfrag as [->|[params ->]]; simpl; apply list_elem_of_bind; eauto. }
    rewrite transform_marks, elem_of_list_to_set, marked_ids_elem.
    exists q, r. split; [done|]. split; [done|].
    unfold component_targets. apply elem_of_app. right.
    rewrite Hdesc, first_return_at; [done | done |].
    intros E. rewrite E in Hsite. by apply elem_of_nil in Hsite.
  - intros file program Hdup F path. split.
    + rewrite (transform_inject file program Hdup), transform_filePath.
      apply program_openings_inject.
    + intros o Hin. split; [|split].
      * rewrite hasAttribute_inject_opening. by apply hasAttribute_visitor.
      * intros Hno. unfold inject_opening. simpl. by rewrite pushed_new.
      * intros Hhas. unfold inject_opening. simpl.
        by rewrite pushed_has, app_nil_r.
  - intros o st Hin Hno. unfold JSXOpeningElement_visitor. simpl. by rewrite pushed_new.
  - intros o st Hhas. by apply visitor_unchanged, pushed_has.
Qed.

Lemma fragment_children_all_tagged_witness :
  4 ∈ topmostElements (transform Examples.file [Usage.menu_component]).2
  /\ program_openings (transform Examples.file [Usage.menu_component]).1
     = inject_opening (topmostElements (transform Examples.file [Usage.menu_component]).2)
         (filePath (Program_enter Examples.file))
       <$> program_openings [Usage.menu_component]
  /\ attributes (JSXOpeningElement_visitor (mkOpening 1 "Title" [])
                   (mkState {[1; 2; 3; 4]} "src/pages/Index.tsx"))
     = [Examples.tagged]
  /\ JSXOpeningElement_visitor Usage.pretagged_header
       (mkState {[1; 2]} "src/pages/Index.tsx")
     = Usage.pretagged_header.
Proof.
  destruct fragment_children_all_tagged
    as (_ & _ & Hmarked & Htagged & Hnew & Hkept & _).
  split; [|split; [|split]].
  - apply (Hmarked Examples.file [Usage.menu_component]
             (ParentNode (Program [Usage.menu_component])) Usage.menu_component
             (take 8 (descendants Usage.menu_component))
             (ParentNode
                (BlockStatement
                   [VariableDeclaration
                      [VariableDeclarator (Identifier "open")
                         (Some (OtherNode "MemberExpression"
                                  [Identifier "props"; Identifier "open"]))];
                    ReturnStatement (Some (JSXFragment Usage.menu_children))]))
             (ReturnStatement (Some (JSXFragment Usage.menu_children)))
             (drop 9 (descendants Usage.menu_component))
             Usage.menu_children
             (JSXExpressionContainer
                (ConditionalExpression (Identifier "open")
                   (Examples.el 3 "Close" [] []) (Examples.el 4 "Open" [] [])))
             4).
    + arrive.
    + reflexivity.
    + reflexivity.
    + vm_compute. repeat constructor.
    + by left.
    + unfold Usage.menu_children. repeat constructor.
    + simpl. repeat constructor.
  - apply (Htagged Examples.file [Usage.menu_component]).
    by apply (bool_decide_unpack _).
  - apply Hnew; [simpl; set_solver | reflexivity].
  - apply Hkept. reflexivity.
Defined.

(** * The path normalizer *)

(** C7.  For a file compiled under a path that contains [src/], the path of
    the state is the part of the supplied path that starts at the first
    occurrence of [src/]; for a supplied path without [src/] it is the
    supplied path itself.  When no path was supplied (no file object, no
    options, or no file name) the path of the state is empty and the
    [JSXOpeningElement] visitor writes the placeholder [unknown].  The [try]
    block of [Program.enter] never throws: every property it reads is read
    behind a guard. *)
Theorem path_normalization :
  (forall path pre,
     occurs_at path "src/" pre ->
     exists pre0 post0,
       path = pre0 +:+ "src/" +:+ post0
       /\ (forall pre', occurs_at path "src/" pre' ->
             String.length pre0 <= String.length pre')
       /\ filePath (Program_enter (file_named path)) = "src/" +:+ post0)
  /\ (forall path,
        (forall pre, ~ occurs_at path "src/" pre) ->
        filePath (Program_enter (file_named path)) = path)
  /\ (forall file o st,
        supplied_path file = None ->
        filePath st = filePath (Program_enter file) ->
        oid o ∈ topmostElements st -> hasAttribute o = false ->
        attributes (JSXOpeningElement_visitor o st)
          = (attributes o ++ [filePathAttribute "unknown"])%list)
  /\ (forall file st, exists st', Program_enter_try file st = Normal st').
Proof.
  split; [|split; [|split]].
  - intros path pre Hocc.
    destruct (JSStringFacts.indexOf_present path "src/" pre Hocc)
      as (pre0 & post0 & Hpath & Hmin & Hi & Hsub).
    exists pre0, post0. split; [done|]. split; [done|].
    rewrite Program_enter_filePath, bool_decide_eq_true_2; [done | lia].
  - intros path Habs.
    rewrite Program_enter_filePath, bool_decide_eq_false_2; [done|].
    rewrite JSStringFacts.indexOf_absent by done. by intros H.
  - intros file o st Hnone Hpath Hin Hno.
    unfold JSXOpeningElement_visitor. simpl.
    rewrite pushed_new by done.
    by rewrite Hpath, Program_enter_no_path.
  - apply Program_enter_try_normal.
Qed.

Lemma path_normalization_witness :
  (exists pre0 post0,
     "/abs/project/src/pages/Foo.tsx" = pre0 +:+ "src/" +:+ post0
     /\ (forall pre',
           occurs_at "/abs/project/src/pages/Foo.tsx" "src/" pre' ->
           String.length pre0 <= String.length pre')
     /\ filePath (Program_enter (file_named "/abs/project/src/pages/Foo.tsx"))
        = "src/" +:+ post0)
  /\ filePath (Program_enter (file_named "/abs/project/lib/Foo.tsx"))
     = "/abs/project/lib/Foo.tsx"
  /\ attributes (JSXOpeningElement_visitor (mkOpening 1 "div" [])
                   (mkState {[1]} (filePath (Program_enter None))))
     = [filePathAttribute "unknown"].
Proof.
  destruct path_normalization as (Hsrc & Hother & Hnone & _).
  split; [|split].
  - apply (Hsrc _ "/abs/project/"). by exists "pages/Foo.tsx".
  - apply Hother. intros pre Hocc.
    assert (H : JSString.indexOf "/abs/project/lib/Foo.tsx" "src/" ≠ (-1)%Z).
    { destruct (JSStringFacts.indexOf_present _ _ _ Hocc) as (? & ? & _ & _ & -> & _).
      lia. }
    by apply H.
  - apply (Hnone None); [reflexivity | reflexivity | set_solver | reflexivity].
Defined.

(** The spec's instance of the path trim. *)
Example path_trim :
  filePath (Program_enter (file_named "/abs/project/src/pages/Foo.tsx"))
    = "src/pages/Foo.tsx".
Proof. reflexivity. Qed.

(** * The attribute injector *)

(** C8.  The [JSXOpeningElement] visitor adds nothing to a tag that already
    carries an attribute named [__file-path]; run a second time on a tag it
    has already visited, with the same set of marked tags, it leaves the tag
    as the first run left it; and it never raises the number of
    [__file-path] attributes of a tag above one.  For a whole file, the
    identities of the opening tags being distinct: a second run of the plugin
    over the tree the first run produced, even under another path, marks the
    same tags and returns that tree unchanged; and every opening tag of the
    tree a run produces has at most as many [__file-path] attributes as it
    had before, or one. *)
Theorem injector_idempotent :
  (forall o st, hasAttribute o = true -> JSXOpeningElement_visitor o st = o)
  /\ (forall o st st',
        topmostElements st' = topmostElements st ->
        JSXOpeningElement_visitor (JSXOpeningElement_visitor o st) st'
          = JSXOpeningElement_visitor o st)
  /\ (forall o st st',
        count_filePath (JSXOpeningElement_visitor o st) <= max 1 (count_filePath o)
        /\ count_filePath
             (JSXOpeningElement_visitor (JSXOpeningElement_visitor o st) st')
           <= max 1 (count_filePath o))
  /\ (forall file file' program,
        NoDup (program_ids program) ->
        (transform file' (transform file program).1).1 = (transform file program).1
        /\ topmostElements (transform file' (transform file program).1).2
           = topmostElements (transform file program).2)
  /\ (forall file program,
        NoDup (program_ids program) ->
        Forall2 (fun o o' =>
                   oid o' = oid o
                   /\ count_filePath o' <= max 1 (count_filePath o))
          (program_openings program)
          (program_openings (transform file program).1)).
Proof.
  assert (Hcount : forall o st,
            count_filePath (JSXOpeningElement_visitor o st) <= max 1 (count_filePath o)).
  { intros o st. rewrite count_filePath_visitor.
    destruct (hasAttribute o) eqn:E.
    - rewrite pushed_has by done. simpl. lia.
    - assert (count_filePath o = 0).
      { destruct (hasAttribute_count o) as [_ H].
        destruct (count_filePath o); [done|]. rewrite H in E by lia. done. }
      unfold pushed. case_bool_decide; rewrite ?E; simpl; lia. }
  split; [|split; [|split; [|split]]].
  - intros o st H. by apply visitor_unchanged, pushed_has.
  - intros o st st' Heq. apply visitor_idempotent. by rewrite Heq.
  - intros o st st'. split; [apply Hcount|].
    etrans; [apply Hcount|]. specialize (Hcount o st). lia.
  - apply transform_idempotent.
  - intros file program Hdup.
    rewrite (transform_inject file program Hdup), program_openings_inject.
    apply Forall2_fmap_r, Forall_Forall2_diag, Forall_forall. intros o _.
    split; [done|]. rewrite count_filePath_inject_opening. apply Hcount.
Qed.

Lemma injector_idempotent_witness :
  (let o := mkOpening 1 "div" [JSXAttribute (JSXIdentifier "className") None] in
   let st := mkState {[1]} "src/pages/Index.tsx" in
   let st' := mkState {[1]} "src/pages/Moved.tsx" in
   JSXOpeningElement_visitor (JSXOpeningElement_visitor o st) st
     = JSXOpeningElement_visitor o st
   /\ JSXOpeningElement_visitor (JSXOpeningElement_visitor o st) st'
     = JSXOpeningElement_visitor o st)
  /\ (transform (file_named "/test/src/pages/Moved.tsx")
        (transform Examples.file Examples.layout).1).1
     = (transform Examples.file Examples.layout).1
  /\ Forall2 (fun o o' =>
                oid o' = oid o /\ count_filePath o' <= max 1 (count_filePath o))
       (program_openings Examples.two_returns)
       (program_openings (transform Examples.file Examples.two_returns).1).
Proof.
  destruct injector_idempotent as (Hhas & Hagain & _ & Hrun & Hcount).
  split; [|split].
  - split.
    + apply Hhas. reflexivity.
    + apply Hagain. reflexivity.
  - apply Hrun. by apply (bool_decide_unpack _).
  - apply Hcount. by apply (bool_decide_unpack _).
Defined.

(** C10.  The [JSXOpeningElement] visitor changes an opening tag only when
    its identity is in the set of marked tags: a tag that is not in the set
    is returned as it was; a tag in the set that lacks the attribute keeps
    its identity, its name and its attributes, in their order, and gets
    exactly one new attribute, [__file-path] with the path of the state (or
    [unknown]), at the end of the list; a tag in the set that has the
    attribute is returned as it was.  For a whole file, the identities of the
    opening tags being distinct, the tree a run produces is the tree of the
    file in which every opening tag has been given what the visitor pushes
    for the set of marked tags and the path the run ends with, and nothing
    else has changed: a subtree none of whose opening tags is in the set is
    left as it was. *)
Theorem injector_frame :
  (forall o st, oid o ∉ topmostElements st -> JSXOpeningElement_visitor o st = o)
  /\ (forall o st,
        oid o ∈ topmostElements st -> hasAttribute o = false ->
        exists new,
          JSXOpeningElement_visitor o st
            = mkOpening (oid o) (tagName o) (attributes o ++ [new])
          /\ new = JSXAttribute (JSXIdentifier "__file-path")
                     (Some (StringLiteral (JSString.or_else (filePath st) "unknown"))))
  /\ (forall o st,
        oid o ∈ topmostElements st -> hasAttribute o = true ->
        JSXOpeningElement_visitor o st = o)
  /\ (forall file program,
        NoDup (program_ids program) ->
        (transform file program).1 =
          inject (topmostElements (transform file program).2)
                 (filePath (transform file program).2) <$> program)
  /\ (forall F path n, (forall i, i ∈ ids n -> i ∉ F) -> inject F path n = n).
Proof.
  split; [|split; [|split; [|split]]].
  - intros o st H. by apply visitor_unchanged, pushed_not_marked.
  - intros o st Hin Hno. eexists. split; [|reflexivity].
    unfold JSXOpeningElement_visitor. by rewrite pushed_new.
  - intros o st _ H. by apply visitor_unchanged, pushed_has.
  - apply transform_inject.
  - apply inject_unmarked.
Qed.

Lemma injector_frame_witness :
  (let className := JSXAttribute (JSXIdentifier "className") None in
   let st := mkState {[1]} "src/pages/Index.tsx" in
   JSXOpeningElement_visitor (mkOpening 2 "div" [className]) st
     = mkOpening 2 "div" [className]
   /\ JSXOpeningElement_visitor (mkOpening 1 "div" [className]) st
     = mkOpening 1 "div" [className; Examples.tagged]
   /\ JSXOpeningElement_visitor (mkOpening 1 "div" [Examples.tagged; className]) st
     = mkOpening 1 "div" [Examples.tagged; className])
  /\ (transform Examples.file Examples.route_in_component).1 =
       inject {[0; 2]} "src/pages/Index.tsx" <$> Examples.route_in_component
  /\ inject {[0; 2]} "src/pages/Index.tsx" (Examples.el 3 "MyBooks" [] [])
     = Examples.el 3 "MyBooks" [] [].
Proof.
  destruct injector_frame as (Hout & Hnew & Hhas & Hrun & Hrest).
  split; [|split].
  - intros className st. split; [|split].
    + apply Hout. simpl. set_solver.
    + destruct (Hnew (mkOpening 1 "div" [className]) st) as (new & -> & ->);
        [simpl; set_solver | reflexivity | reflexivity].
    + apply Hhas; [simpl; set_solver | reflexivity].
  - assert (H : topmostElements (transform Examples.file Examples.route_in_component).2
                = {[0; 2]}) by by vm_compute.
    rewrite <- H.
    apply (Hrun Examples.file Examples.route_in_component).
    by apply (bool_decide_unpack _).
  - apply Hrest. intros i Hi. simpl in Hi. set_solver.
Defined.

(** * The prop-value resolver *)

(** C4 fails outside components.  The [JSXExpressionContainer] visitor belongs
    to the nested traversal of [findTopmostJSX], which runs only below a
    function declaration or a variable declarator initialised with a
    function.  In the file of the second test of [test-plugin.js], which holds
    the usage [<Route element={<PrivateRoute>...</PrivateRoute>} />] and no
    component, nothing is marked. *)
Lemma prop_value_outside_component_not_marked :
  ~ prop_values_marked_everywhere Examples.file Examples.route_usage.
Proof.
  intros H.
  assert (Hin : 2 ∈ topmostElements (transform Examples.file Examples.route_usage).2).
  { apply (H (ParentNode Examples.element_attribute) Examples.private_route).
    - descend (ExpressionStatement Examples.route).
      descend Examples.route.
      descend Examples.element_attribute.
      arrive.
    - reflexivity.
    - simpl. set_solver. }
  revert Hin. by apply not_elem_of_by_compute.
Qed.

(** C4, amended.  For every [{...}] slot that is the value of an attribute
    and lies inside a scanned component (a function declaration, or a
    variable declarator initialised with a function or an arrow function),
    wherever the component is in the file, the three-way classification is
    applied and the opening tag of every element it resolves to is marked;
    the visitor adds exactly those tags to the set and leaves [foundTopmost]
    as it found it.  Outside the scanned components nothing is classified:
    every opening tag a run marks lies in a scanned component. *)
Theorem prop_value_inside_component_marked :
  (forall file program q r p expression i,
     inside (q, r) (Program program) -> is_component r = true ->
     inside (p, JSXExpressionContainer expression) r ->
     isJSXAttribute p = true ->
     i ∈ resolved expression ->
     i ∈ topmostElements (transform file program).2)
  /\ (forall p expression s,
        isJSXAttribute p = true ->
        topmostElements (state (JSXExpressionContainer_visitor p expression s))
          = list_to_set (resolved expression) ∪ topmostElements (state s))
  /\ (forall p expression s,
        foundTopmost (JSXExpressionContainer_visitor p expression s) = foundTopmost s)
  /\ (forall file program i,
        i ∈ topmostElements (transform file program).2 ->
        exists q r,
          inside (q, r) (Program program) /\ is_component r = true /\ i ∈ ids r).
Proof.
  split; [|split; [|split]].
  - intros file program q r p expression i Hr Hcomp Hslot Hp Hi.
    destruct (transform_scans file program q r Hr Hcomp) as [st Hst].
    destruct (findTopmostJSX_visits _ _ _ st Hslot) as [s Hs].
    apply Hst, Hs. simpl.
    rewrite JSXExpressionContainer_visitor_marks by done. set_solver.
  - intros. by apply JSXExpressionContainer_visitor_marks.
  - apply JSXExpressionContainer_visitor_foundTopmost.
  - apply transform_in_component.
Qed.

Lemma prop_value_inside_component_marked_witness :
  2 ∈ topmostElements (transform Examples.file Examples.route_in_component).2.
Proof.
  destruct prop_value_inside_component_marked as (H & _).
  eapply (H _ _ _
            (FunctionDeclaration "App" []
               (BlockStatement
                  [ReturnStatement (Some (Examples.el 0 "Routes" [] [Examples.route]))]))
            (ParentNode Examples.element_attribute) Examples.private_route).
  - arrive.
  - reflexivity.
  - descend (BlockStatement
               [ReturnStatement (Some (Examples.el 0 "Routes" [] [Examples.route]))]).
    descend (ReturnStatement (Some (Examples.el 0 "Routes" [] [Examples.route]))).
    descend (Examples.el 0 "Routes" [] [Examples.route]).
    descend Examples.route.
    descend Examples.element_attribute.
    arrive.
  - reflexivity.
  - simpl. set_solver.
Defined.

(** * Further properties of the scan, the run and the injector *)

(** X1.  The scan of a component, in closed form.  [findTopmostJSX] leaves
    the path of the state as it is and adds to the set exactly the targets of
    the component: an opening tag is a target when an attribute-value slot
    [{...}] that lies below the component resolves to it, wherever the slot
    lies and whatever was found before, or when it is yielded by the first
    return site, in the order of the traversal, that yields anything. *)
Theorem scan_marks_exactly r st :
  findTopmostJSX r st
    = mkState (topmostElements st ∪ list_to_set (component_targets r)) (filePath st)
  /\ (forall i, i ∈ component_targets r <->
        (exists p expression,
           inside (p, JSXExpressionContainer expression) r
           /\ isJSXAttribute p = true /\ i ∈ resolved expression)
        \/ i ∈ first_return (descendants r)).
Proof.
  split; [apply findTopmostJSX_closed|]. intros i. unfold component_targets.
  rewrite elem_of_app, all_slots_elem.
  split; (intros [(p & e & H & ?)|?]; [left|by right]); exists p, e;
    (split; [by apply descendants_inside|done]).
Qed.

(** X2.  Of the return sites of a component only one counts: the first one,
    in the order of the traversal, that yields an opening tag.  When the
    nodes below the component are [l1], then [site], then [l2], no node of
    [l1] yields anything and [site] does, the scan adds what [site] yields
    and what the attribute-value slots yield, and nothing else: no return
    site of [l2] adds a tag.  The traversal does not stop at nested
    functions, so the site that counts may be the return statement of a
    callback that comes before the return statement of the component. *)
Theorem only_first_return_site_counts r st l1 p site l2 :
  descendants r = l1 ++ (p, site) :: l2 ->
  Forall (fun pd => return_targets pd.2 = []) l1 ->
  return_targets site <> [] ->
  topmostElements (findTopmostJSX r st)
    = topmostElements st
      ∪ list_to_set (all_slots (descendants r))
      ∪ list_to_set (return_targets site).
Proof.
  intros Hl Hl1 Hne. rewrite findTopmostJSX_marks. unfold component_targets.
  rewrite list_to_set_app_L. rewrite Hl at 2. rewrite first_return_at by done.
  set_solver.
Qed.

Lemma only_first_return_site_counts_witness :
  topmostElements (findTopmostJSX Usage.list_component (mkState ∅ "")) = {[1]}.
Proof.
  rewrite (only_first_return_site_counts Usage.list_component (mkState ∅ "")
             (take 11 (descendants Usage.list_component))
             (ParentNode (BlockStatement [ReturnStatement (Some (Examples.el 1 "li" [] []))]))
             (ReturnStatement (Some (Examples.el 1 "li" [] [])))
             (drop 12 (descendants Usage.list_component))).
  - by vm_compute.
  - reflexivity.
  - vm_compute. repeat constructor.
  - discriminate.
Defined.

(** X3.  Once the flag [foundTopmost] is set, the traversal of any subtree
    marks only what the attribute-value slots of that subtree yield, return
    statements and arrow bodies add nothing, and the flag stays set. *)
Theorem after_a_return_site_only_slots p n s :
  foundTopmost s = true ->
  topmostElements (state (scan_node p n s))
    = topmostElements (state s) ∪ list_to_set (all_slots (preorder p n))
  /\ foundTopmost (scan_node p n s) = true.
Proof. apply scan_node_found. Qed.

Lemma after_a_return_site_only_slots_witness :
  let s := mkScan (mkState {[7]} "src/pages/Index.tsx") true in
  let site := ReturnStatement (Some (Examples.el 0 "Routes" [] [Examples.route])) in
  topmostElements (state (scan_node (ParentNode (BlockStatement [site])) site s))
    = {[7; 2]}
  /\ foundTopmost (scan_node (ParentNode (BlockStatement [site])) site s) = true.
Proof.
  intros s site.
  destruct (after_a_return_site_only_slots (ParentNode (BlockStatement [site])) site s
              eq_refl) as [-> ->].
  split; [by vm_compute | done].
Defined.

(** X4.  Scans do not depend on each other: the flag is local to one call of
    [findTopmostJSX], so scanning two components in either order gives the
    same state, and scanning a component a second time changes nothing. *)
Theorem scans_commute r1 r2 st :
  findTopmostJSX r1 (findTopmostJSX r2 st) = findTopmostJSX r2 (findTopmostJSX r1 st)
  /\ findTopmostJSX r1 (findTopmostJSX r1 st) = findTopmostJSX r1 st.
Proof.
  rewrite !findTopmostJSX_closed. simpl. split; apply state_eq; simpl; set_solver.
Qed.

(** X5.  The set at the end of a run, in closed form: an opening tag is
    marked exactly when it is a target of a component of the file, that is of
    a function declaration or of a variable declarator initialised with a
    function, at any depth.  A component nested in another one is scanned on
    its own, and by the scan of the outer one as well. *)
Theorem run_marks_exactly file program :
  topmostElements (transform file program).2 = list_to_set (marked_ids program)
  /\ (forall i, i ∈ marked_ids program <->
        exists q r, inside (q, r) (Program program) /\ is_component r = true
                    /\ i ∈ component_targets r).
Proof. split; [apply transform_marks | intros i; apply marked_ids_elem]. Qed.

(** X6.  A run is a scan followed by an injection.  On a tree whose opening
    tags are distinct objects, the single traversal of the plugin, which
    marks and tags as it goes, returns the tree of the injector for the set
    of all targets of the file and the normalized path, together with that
    set and that path. *)
Theorem run_is_scan_then_inject file program :
  NoDup (program_ids program) ->
  transform file program =
    (inject (list_to_set (marked_ids program)) (filePath (Program_enter file)) <$> program,
     mkState (list_to_set (marked_ids program)) (filePath (Program_enter file))).
Proof.
  intros Hdup. rewrite (surjective_pairing (transform file program)). f_equal.
  - by rewrite transform_inject, transform_marks, transform_filePath.
  - apply state_eq; simpl; [apply transform_marks | apply transform_filePath].
Qed.

Lemma run_is_scan_then_inject_witness :
  transform Examples.file [Usage.outer_component] =
    ([FunctionDeclaration "Outer" []
        (BlockStatement
           [FunctionDeclaration "Inner" []
              (BlockStatement
                 [ReturnStatement (Some (Examples.el 1 "span" [Examples.tagged] []))]);
            ReturnStatement
              (Some (Examples.el 2 "div" [] [Examples.el 3 "Inner" [] []]))])],
     mkState {[1]} "src/pages/Index.tsx").
Proof.
  rewrite (run_is_scan_then_inject Examples.file [Usage.outer_component]).
  - by vm_compute.
  - apply (bool_decide_unpack _). by vm_compute.
Defined.

(** X7.  The statements of a file are processed independently: the set
    marked on two lists of statements put together is the union of the sets
    marked on each, and, when the opening tags are distinct objects, the
    tree returned is the two returned trees put together. *)
Theorem statements_are_independent file p1 p2 :
  topmostElements (transform file (p1 ++ p2)).2
    = topmostElements (transform file p1).2 ∪ topmostElements (transform file p2).2
  /\ (NoDup (program_ids (p1 ++ p2)) ->
      (transform file (p1 ++ p2)).1 = (transform file p1).1 ++ (transform file p2).1).
Proof.
  split.
  - rewrite !transform_marks, marked_ids_app, list_to_set_app_L. done.
  - intros Hdup. pose proof Hdup as Hdup'. unfold program_ids in Hdup'.
    rewrite bind_app in Hdup'. apply NoDup_app in Hdup' as (Hd1 & Hdisj & Hd2).
    rewrite !transform_inject by done. rewrite !transform_filePath, !transform_marks.
    rewrite fmap_app, marked_ids_app, list_to_set_app_L. f_equal.
    + apply list_fmap_ext. intros k n Hn. apply list_elem_of_lookup_2 in Hn.
      apply inject_ext. intros i Hi.
      assert (Hi1 : i ∈ p1 ≫= ids) by (apply list_elem_of_bind; eauto).
      pose proof (marked_ids_ids p2 i) as H2. unfold program_ids in H2.
      specialize (Hdisj i Hi1). set_solver.
    + apply list_fmap_ext. intros k n Hn. apply list_elem_of_lookup_2 in Hn.
      apply inject_ext. intros i Hi.
      assert (Hi2 : i ∈ p2 ≫= ids) by (apply list_elem_of_bind; eauto).
      pose proof (marked_ids_ids p1 i) as H1. unfold program_ids in H1.
      assert (i ∉ p1 ≫= ids) by (intros Hi1; by apply (Hdisj i Hi1)).
      set_solver.
Qed.

Lemma statements_are_independent_witness :
  (transform Examples.file (Examples.two_returns ++ Usage.banner)).1
    = (transform Examples.file Examples.two_returns).1
      ++ (transform Examples.file Usage.banner).1.
Proof.
  apply (statements_are_independent Examples.file Examples.two_returns Usage.banner).
  apply (bool_decide_unpack _). by vm_compute.
Defined.

(** X8.  A file that holds no function declaration and no variable
    declarator initialised with a function is returned as it is, and nothing
    is marked: class components, and markup at the top level, are never
    tagged. *)
Theorem no_component_no_change file program :
  (forall q r, inside (q, r) (Program program) -> is_component r = false) ->
  transform file program = (program, Program_enter file).
Proof.
  intros Hno.
  assert (Hm : marked_ids program = []).
  { destruct (marked_ids program) as [|i l] eqn:E; [done|].
    assert (Hi : i ∈ marked_ids program) by (rewrite E; left).
    apply marked_ids_elem in Hi as (q & r & Hin & Hc & _).
    rewrite (Hno q r Hin) in Hc. discriminate. }
  rewrite (surjective_pairing (transform file program)). f_equal.
  - apply transform_unmarked. intros i _. rewrite transform_marks, Hm. set_solver.
  - apply state_eq; [|apply transform_filePath].
    by rewrite transform_marks, Hm, Program_enter_topmostElements.
Qed.

Lemma no_component_no_change_witness :
  transform Examples.file Usage.class_component
    = (Usage.class_component, mkState ∅ "src/pages/Index.tsx").
Proof.
  rewrite (no_component_no_change Examples.file Usage.class_component); [reflexivity|].
  intros q r Hin. apply descendants_inside in Hin.
  revert q r Hin.
  assert (H : Forall (fun pd => is_component pd.2 = false)
                (descendants (Program Usage.class_component))).
  { vm_compute. repeat constructor. }
  intros q r Hin. by apply (proj1 (Forall_forall _ _) H (q, r)).
Defined.

(** X9.  A run marks only opening tags of the file itself, and only tags
    that lie inside a component. *)
Theorem marked_tags_lie_in_components file program i :
  i ∈ topmostElements (transform file program).2 ->
  i ∈ program_ids program
  /\ exists q r, inside (q, r) (Program program) /\ is_component r = true /\ i ∈ ids r.
Proof.
  intros Hi. split; [|by apply (transform_in_component file)].
  apply marked_ids_ids. by rewrite transform_marks, elem_of_list_to_set in Hi.
Qed.

Lemma marked_tags_lie_in_components_witness :
  1 ∈ program_ids Examples.two_returns
  /\ exists q r, inside (q, r) (Program Examples.two_returns)
                 /\ is_component r = true /\ 1 ∈ ids r.
Proof.
  apply (marked_tags_lie_in_components Examples.file Examples.two_returns 1).
  vm_compute. set_solver.
Defined.

(** X10.  Which opening tags a run marks does not depend on the file object
    or the file name: the path only ends up in the value of the attribute. *)
Theorem marks_do_not_depend_on_the_file_name file file' program :
  topmostElements (transform file' program).2
    = topmostElements (transform file program).2.
Proof. apply transform_marks_path. Qed.

(** X11.  Nothing is ever taken back.  Every visitor of the nested
    traversal, every scan, the traversal of the plugin at every node and the
    whole run leave the path as it is and every marked tag marked; a visitor
    of the nested traversal never clears the flag. *)
Theorem state_only_grows :
  (forall p n s,
     scan_le s (scan_enter p n s)
     /\ (foundTopmost s = true -> foundTopmost (scan_enter p n s) = true))
  /\ (forall r st, state_le st (findTopmostJSX r st))
  /\ (forall n st, state_le st (plugin_visit n st).2)
  /\ (forall file program,
        state_le (Program_enter file) (transform file program).2).
Proof.
  split; [|split; [|split]].
  - intros p n s. split; [apply scan_enter_le|].
    rewrite scan_enter_found. by intros ->.
  - apply findTopmostJSX_le.
  - apply plugin_visit_le.
  - intros file program. apply rewrite_list_le.
Qed.

(** X12.  [tagFragmentChildren] in closed form: it marks what the children
    of the fragment yield, leaves the path, and sets the flag exactly when
    some child yields a tag.  A fragment none of whose children qualifies
    leaves the flag as it was, so a later return site is still looked at. *)
Theorem fragment_flag children s :
  tagFragmentChildren (JSXFragment children) s
    = mkScan (mkState (topmostElements (state s) ∪ list_to_set (children ≫= qualifying))
                      (filePath (state s)))
             (foundTopmost s || bool_decide (children ≫= qualifying ≠ [])).
Proof.
  apply scan_eq; [apply state_eq|]; cbn [state foundTopmost topmostElements filePath].
  - rewrite (tagFragmentChildren_marks children s). set_solver.
  - apply (tagFragmentChildren_filePath (JSXFragment children)).
  - apply tagFragmentChildren_found.
Qed.

(** X13.  When the [JSXOpeningElement] visitor pushes.  A tag counts as
    carrying the attribute exactly when one of its attributes is a plain
    attribute named [__file-path], whatever its value; a namespaced name and
    a spread attribute do not count.  The visitor pushes exactly when the tag
    is marked and carries no such attribute. *)
Theorem push_condition o st :
  (hasAttribute o = true <->
     exists value, JSXAttribute (JSXIdentifier "__file-path") value ∈ attributes o)
  /\ (pushed o st <> [] <->
        oid o ∈ topmostElements st
        /\ ~ exists value, JSXAttribute (JSXIdentifier "__file-path") value ∈ attributes o).
Proof.
  assert (Hhas : hasAttribute o = true <->
     exists value, JSXAttribute (JSXIdentifier "__file-path") value ∈ attributes o).
  { unfold hasAttribute. rewrite existsb_exists. split.
    - intros (attr & Hin & Hattr). apply isFilePathAttribute_spec in Hattr as [value ->].
      exists value. by apply list_elem_of_In.
    - intros [value Hin]. eexists. split; [by apply list_elem_of_In|done]. }
  split; [done|]. rewrite <- Hhas. unfold pushed.
  case_bool_decide; destruct (hasAttribute o); simpl; split; try done; tauto.
Qed.

(** X14.  What the [JSXOpeningElement] visitor pushes is the attribute
    [__file-path] with a non-empty string for value: the path of the state,
    or [unknown] when that path is empty (a file name that is the empty
    string counts as no file name). *)
Theorem pushed_value_is_never_empty o st attr :
  attr ∈ pushed o st ->
  exists value,
    attr = filePathAttribute value
    /\ value <> ""
    /\ value = (if bool_decide (filePath st = "") then "unknown" else filePath st).
Proof.
  unfold pushed. case_bool_decide; [|set_solver].
  destruct (hasAttribute o); simpl; [set_solver|].
  intros ->%list_elem_of_singleton. eexists. split; [done|].
  destruct (filePath st) eqn:E; simpl; [done|]. split; [done|].
  done.
Qed.

Lemma pushed_value_is_never_empty_witness :
  exists value,
    filePathAttribute "unknown" = filePathAttribute value
    /\ value <> ""
    /\ value = "unknown".
Proof.
  apply (pushed_value_is_never_empty (mkOpening 1 "div" [])
           (mkState {[1]} (filePath (Program_enter (file_named ""))))).
  vm_compute. left.
Defined.

(** X15.  The path [Program.enter] stores is a suffix of the file name, and
    normalizing it again gives it back. *)
Theorem normalized_path_is_a_fixed_point path :
  let path' := filePath (Program_enter (file_named path)) in
  (exists pre, path = pre +:+ path')
  /\ filePath (Program_enter (file_named path')) = path'.
Proof.
  cbv zeta. rewrite (Program_enter_filePath path).
  destruct (JSStringFacts.indexOf_from_spec "src/" path 0)
    as [[Habs _]|(pre & Hocc & _)].
  - fold (JSString.indexOf path "src/") in Habs. rewrite Habs.
    rewrite bool_decide_eq_false_2 by (by intros H).
    split; [by exists ""|]. rewrite Program_enter_filePath, Habs.
    by rewrite bool_decide_eq_false_2 by (by intros H).
  - destruct (JSStringFacts.indexOf_present path "src/" pre Hocc)
      as (pre0 & post0 & Hpath & _ & Hi & Hsub).
    rewrite bool_decide_eq_true_2 by lia. rewrite Hsub.
    split; [by exists pre0|].
    rewrite Program_enter_filePath. reflexivity.
Qed.
